(** * PSD layer combiner: a shallow embedding of [psd_layer_processor.py]

    The development follows the Python module function by function:
    the string helpers the code uses on layer names, the layer tree the
    PSD parser hands over, the structure validator, the visibility
    resolver, the compositor with its three tiers, and the batch driver.
    The PSD parser, the raster library and the file system are
    collaborators of the module; they appear as a small executable model
    (images) or as the fields of a [World] record (everything that
    touches files). *)

From Stdlib Require Import String Ascii ZArith QArith Qround List Bool Lia.
From stdpp Require Import base list strings gmap.
Import ListNotations.

Open Scope string_scope.
Open Scope Z_scope.
Open Scope list_scope.

(** ** Python string methods used on layer names

    Names are modelled as byte strings; [lower] and [strip] are the
    restrictions of [str.lower] and [str.strip] to the ASCII range. *)

Module Py.

(** [c.lower()] for one character: only 'A'..'Z' move. *)
Definition lower_char (c : ascii) : ascii :=
  let n := N_of_ascii c in
  if ((65 <=? n) && (n <=? 90))%N then ascii_of_N (n + 32) else c.

(** [c.isspace()]: tab, line feed, vertical tab, form feed, carriage
    return, the four separators 0x1c..0x1f, and space. *)
Definition isspace (c : ascii) : bool :=
  let n := N_of_ascii c in
  (((9 <=? n) && (n <=? 13)) || ((28 <=? n) && (n <=? 32)))%N.

Fixpoint lower (s : string) : string :=
  match s with
  | EmptyString => EmptyString
  | String c s' => String (lower_char c) (lower s')
  end.

Fixpoint lstrip (s : string) : string :=
  match s with
  | EmptyString => EmptyString
  | String c s' => if isspace c then lstrip s' else s
  end.

(** [rstrip] by a right-to-left pass: a character is dropped exactly
    when it is white space and everything after it was dropped. *)
Fixpoint rstrip (s : string) : string :=
  match s with
  | EmptyString => EmptyString
  | String c s' =>
      match rstrip s' with
      | EmptyString => if isspace c then EmptyString else String c EmptyString
      | r => String c r
      end
  end.

Definition strip (s : string) : string := rstrip (lstrip s).

(** [sub in s]. *)
Fixpoint contains (sub s : string) : bool :=
  String.prefix sub s ||
  match s with
  | EmptyString => false
  | String _ s' => contains sub s'
  end.

(** Truthiness of a string: non-empty. *)
Definition truthy (s : string) : bool :=
  match s with EmptyString => false | _ => true end.

(** A string made of white space only. *)
Fixpoint blank (s : string) : bool :=
  match s with
  | EmptyString => true
  | String c s' => isspace c && blank s'
  end.

End Py.

(** ** Outcomes of Python calls *)

Inductive Exc : Set := TypeError | ValueError | OSError.

(** A call either returns a value or raises. *)
Inductive Outcome (A : Type) : Type :=
| Return (a : A)
| Raise (e : Exc).
Arguments Return {A} a.
Arguments Raise {A} e.

Inductive Level : Set := ERROR | WARNING | INFO.

(** One call of [logger.error], [logger.warning] or [logger.info]. *)
Definition LogRecord : Type := Level * string.

(** ** The raster library, as far as the module uses it *)

Module Image.

Inductive Mode : Set := RGB | RGBA | L.

(** Channel values in 0..255; [a] is 255 where the mode has no alpha. *)
Record Color : Set := mkColor { r : Z; g : Z; b : Z; a : Z }.

(** An image: its mode, its size, its pixels, and the strings that
    [ImageDraw.text] wrote on it, with their positions. *)
Record t : Type := mk {
  mode : Mode;
  width : Z;
  height : Z;
  getpixel : Z -> Z -> Color;
  text : list (Z * Z * string)
}.

Definition size (im : t) : Z * Z := (width im, height im).

(** [Image.new('RGB', (w, h), color)]; a negative size is a
    [ValueError]. *)
Definition new (w h : Z) (c : Z * Z * Z) : Outcome t :=
  if (w <? 0) || (h <? 0) then Raise ValueError
  else
    let '(cr, cg, cb) := c in
    Return {| mode := RGB; width := w; height := h;
              getpixel := fun _ _ => mkColor cr cg cb 255;
              text := [] |}.

(** [round(x)] of Python 3: to the nearest integer, ties to even. *)
Definition py_round (x : Q) : Z :=
  let f := Qfloor x in
  let d := (x - inject_Z f)%Q in
  match (d ?= 1 # 2)%Q with
  | Lt => f
  | Gt => f + 1
  | Eq => if Z.even f then f else f + 1
  end.

(** [alpha = im.split()[3]; alpha = alpha.point(lambda p: p * opacity);
    im.putalpha(alpha)]: the table built by [point] is rounded. *)
Definition scale_alpha (im : t) (opacity : Q) : t :=
  {| mode := mode im; width := width im; height := height im;
     getpixel := fun x y =>
       let c := getpixel im x y in
       mkColor (r c) (g c) (b c) (py_round (inject_Z (a c) * opacity));
     text := text im |}.

(** Integer division by 255 as the paste routine computes it. *)
Definition div255 (v : Z) : Z :=
  let tmp := v + 128 in
  Z.shiftr (Z.shiftr tmp 8 + tmp) 8.

Definition blend8 (mask dst src : Z) : Z :=
  div255 (dst * (255 - mask) + src * mask).

(** One pixel of [canvas.paste(im, box, mask)]: with a mask the source
    is blended in by its alpha, without one it replaces the pixel. *)
Definition paste_pixel (masked : bool) (dst src : Color) : Color :=
  if masked
  then mkColor (blend8 (a src) (r dst) (r src))
               (blend8 (a src) (g dst) (g src))
               (blend8 (a src) (b dst) (b src)) 255
  else mkColor (r src) (g src) (b src) 255.

(** [canvas.paste(im, (left, top, left + im.width, top + im.height))],
    with [im] itself as the mask when [masked]. *)
Definition paste (canvas im : t) (left_ top_ : Z) (masked : bool) : t :=
  {| mode := mode canvas; width := width canvas; height := height canvas;
     getpixel := fun x y =>
       if (left_ <=? x) && (x <? left_ + width im)
          && (top_ <=? y) && (y <? top_ + height im)
       then paste_pixel masked (getpixel canvas x y)
                        (getpixel im (x - left_) (y - top_))
       else getpixel canvas x y;
     text := text canvas |}.

(** [im.convert('RGB')]: the alpha channel is dropped. *)
Definition convert_rgb (im : t) : t :=
  {| mode := RGB; width := width im; height := height im;
     getpixel := fun x y =>
       let c := getpixel im x y in mkColor (r c) (g c) (b c) 255;
     text := text im |}.

(** [ImageDraw.Draw(im).text((x, y), s, ...)]. *)
Definition draw_text (im : t) (x y : Z) (s : string) : t :=
  {| mode := mode im; width := width im; height := height im;
     getpixel := getpixel im;
     text := text im ++ [(x, y, s)] |}.

Definition mode_eqb (m1 m2 : Mode) : bool :=
  match m1, m2 with
  | RGB, RGB | RGBA, RGBA | L, L => true
  | _, _ => false
  end.

End Image.

(** ** The layer tree *)

(** What every layer carries.  [opacity] is the number the code compares
    with [1.0]; [offset] is [(left, top)]. *)
Record Attrs : Type := mkAttrs {
  name : string;
  visible : bool;
  opacity : Q;
  offset : Z * Z
}.

(** A layer is a leaf with its raster content ([None] when [topil()]
    gives nothing) or a group with its children, in iteration order. *)
#[local] Unset Elimination Schemes.
Inductive Layer : Type :=
| PixelLayer (at_ : Attrs) (pixels : option Image.t)
| Group (at_ : Attrs) (layers : list Layer).
#[local] Set Elimination Schemes.

(** Induction over the tree, with the hypothesis for every child of a
    group. *)
Fixpoint Layer_ind (P : Layer -> Prop)
    (Hpixel : forall x px, P (PixelLayer x px))
    (Hgroup : forall x ls, Forall P ls -> P (Group x ls))
    (l : Layer) {struct l} : P l :=
  match l with
  | PixelLayer x px => Hpixel x px
  | Group x ls =>
      Hgroup x ls
        ((fix all (ls : list Layer) : Forall P ls :=
            match ls with
            | [] => @List.Forall_nil _ P
            | c :: cs => @List.Forall_cons _ P c cs (Layer_ind P Hpixel Hgroup c) (all cs)
            end) ls)
  end.

(** The parsed document.  Its own name, as a parent, is ["Root"]. *)
Record PSDImage : Type := mkPSD {
  psd_width : Z;
  psd_height : Z;
  psd_layers : list Layer
}.

Definition attrs (l : Layer) : Attrs :=
  match l with PixelLayer x _ | Group x _ => x end.

Definition layer_name (l : Layer) : string := name (attrs l).
Definition layer_visible (l : Layer) : bool := visible (attrs l).

(** [isinstance(layer, Group)] *)
Definition is_group (l : Layer) : bool :=
  match l with Group _ _ => true | PixelLayer _ _ => false end.

(** [list(layer)]: the children of a group, nothing for a leaf. *)
Definition children (l : Layer) : list Layer :=
  match l with Group _ ls => ls | PixelLayer _ _ => [] end.

(** [layer.topil()] *)
Definition topil (l : Layer) : option Image.t :=
  match l with PixelLayer _ px => px | Group _ _ => None end.

Definition set_visible (v : bool) (x : Attrs) : Attrs :=
  {| name := name x; visible := v; opacity := opacity x; offset := offset x |}.

(** [layer.visible = v] *)
Definition with_visible (v : bool) (l : Layer) : Layer :=
  match l with
  | PixelLayer x px => PixelLayer (set_visible v x) px
  | Group x ls => Group (set_visible v x) ls
  end.

Definition root_name : string := "Root".

(** [layer.descendants()] below one layer, each layer paired with the
    name of its parent: a pre-order walk. *)
Fixpoint below (l : Layer) : list (string * Layer) :=
  match l with
  | PixelLayer _ _ => []
  | Group x ls => flat_map (fun c => (name x, c) :: below c) ls
  end.

(** [psd.descendants()], with parent names. *)
Definition descendants (psd : PSDImage) : list (string * Layer) :=
  flat_map (fun c => (root_name, c) :: below c) (psd_layers psd).

(** ** Layer tree accessor *)

(** The first top-level group whose name is exactly [group_name]. *)
Definition _get_group_by_name (psd : PSDImage) (group_name : string)
  : option Layer :=
  List.find (fun layer => is_group layer && bool_decide (layer_name layer = group_name))
            (psd_layers psd).

(** One turn of the loop of [_get_layer_colors]: the name is lower-cased
    and stripped, and appended unless empty or already there. *)
Definition add_color (colors : list string) (layer : Layer) : list string :=
  if Py.truthy (layer_name layer) then
    let color_name := Py.strip (Py.lower (layer_name layer)) in
    if Py.truthy color_name && negb (bool_decide (color_name ∈ colors))
    then colors ++ [color_name]
    else colors
  else colors.

(** A group is falsy when it has no children, so [if not group] also
    catches the empty group. *)
Definition _get_layer_colors (psd : PSDImage) (group_name : string)
  : list string :=
  match _get_group_by_name psd group_name with
  | None => []
  | Some group =>
      match children group with
      | [] => []
      | ls => fold_left add_color ls []
      end
  end.

(** A Python [dict] with string keys, in insertion order. *)
Fixpoint dict_set {V : Type} (d : list (string * V)) (k : string) (v : V)
  : list (string * V) :=
  match d with
  | [] => [(k, v)]
  | (k', v') :: d' =>
      if bool_decide (k' = k) then (k, v) :: d' else (k', v') :: dict_set d' k v
  end.

Definition _validate_color_pairs (psd : PSDImage) : list (string * bool) :=
  let camera_colors := _get_layer_colors psd "camera" in
  let colors_group_colors := _get_layer_colors psd "colors" in
  let base_colors := _get_layer_colors psd "base" in
  fold_left
    (fun valid_colors color =>
       let has_color := bool_decide (color ∈ colors_group_colors) in
       let has_base := bool_decide (color ∈ base_colors) in
       dict_set valid_colors color (has_color && has_base))
    camera_colors [].

(** [[color for color, is_valid in valid_colors.items() if is_valid]] *)
Definition valid_color_names (psd : PSDImage) : list string :=
  map fst (List.filter snd (_validate_color_pairs psd)).

(** ** Structure validator *)

Definition required_groups : list string :=
  ["@main"; "camera"; "colors"; "base"; "bg"].

(** The names of the top-level groups, as the first loop collects them. *)
Definition group_names (psd : PSDImage) : list string :=
  map layer_name (List.filter is_group (psd_layers psd)).

(** The check of [@main]: a warning when the group is there, is
    non-empty, and has no child whose lower-cased name contains
    ["metalware"]. *)
Definition metalware_check (psd : PSDImage) : list LogRecord :=
  match _get_group_by_name psd "@main" with
  | Some main_group =>
      match children main_group with
      | [] => []
      | ls =>
          if existsb (fun layer => Py.contains "metalware" (Py.lower (layer_name layer))) ls
          then []
          else [(WARNING, "@main group should contain metalware layer")]
      end
  | None => []
  end.

(** The result and the records logged on the way.  The loop over the
    required names returns at the first one that is missing. *)
Definition _validate_psd_structure (psd : PSDImage) : bool * list LogRecord :=
  match List.find (fun required_group => negb (bool_decide (required_group ∈ group_names psd)))
                  required_groups with
  | Some required_group =>
      (false, [(ERROR, "Missing required group: " +:+ required_group)])
  | None => (true, metalware_check psd)
  end.

(** ** Visibility resolver *)

(** [all_colors]: the union of the color names of the three groups.  The
    names are read from the processor's own document ([self.psd]), not
    from the copy whose flags are being set. *)
Definition all_colors (self_psd : PSDImage) : gset string :=
  fold_left
    (fun acc group_name => acc ∪ list_to_set (_get_layer_colors self_psd group_name))
    ["camera"; "colors"; "base"] ∅.

(** Step 1, for one top-level layer. *)
Definition show_container (layer : Layer) : Layer :=
  if is_group layer then
    let group_name := Py.strip (Py.lower (layer_name layer)) in
    if bool_decide (group_name ∈ ["bg"; "base"; "colors"; "camera"; "@main"])
    then with_visible true layer
    else layer
  else layer.

(** Step 2, the body of the loop for one layer: the flag it assigns,
    from the parent's name and the layer's name as stored.  Every branch
    of the body assigns the flag and moves on to the next layer.  A
    top-level layer has the document as its parent. *)
Definition assigned_flag (all_colors : gset string) (target_color : string)
    (parent : string) (own : string) : bool :=
  let layer_name := Py.strip (Py.lower own) in
  let parent_name := Py.lower parent in
  if bool_decide (parent_name = "bg") then true
  else if bool_decide (parent_name = "base") then
    if bool_decide (layer_name = Py.lower target_color) then true
    else if bool_decide (layer_name ∈ all_colors) then false
    else true
  else if bool_decide (parent_name = "colors") then
    if bool_decide (layer_name = Py.lower target_color) then true
    else if bool_decide (layer_name ∈ all_colors) then false
    else true
  else if bool_decide (parent_name = "camera") then
    if bool_decide (layer_name = Py.lower target_color) then true
    else if bool_decide (layer_name ∈ all_colors) then false
    else true
  else if bool_decide (parent_name = "@main") then
    if bool_decide (layer_name ∈ all_colors) then
      if bool_decide (layer_name = Py.lower target_color) then true else false
    else true
  else if bool_decide (parent_name ∈ all_colors) then
    if bool_decide (parent_name = Py.lower target_color) then true else false
  else true.

(** Step 2 on the tree: the loop runs over [psd.descendants()], which
    yields a layer and then what is below it; the body only writes the
    flag of the layer it is given, so the walk and the writes interleave
    as a recursion over the tree. *)
Fixpoint resolve_layer (all_colors : gset string) (target_color : string)
    (parent : string) (layer : Layer) : Layer :=
  match layer with
  | PixelLayer x px =>
      PixelLayer (set_visible (assigned_flag all_colors target_color parent (name x)) x) px
  | Group x ls =>
      Group (set_visible (assigned_flag all_colors target_color parent (name x)) x)
            (map (resolve_layer all_colors target_color (name x)) ls)
  end.

(** The document after the call: in-place mutation as state passing. *)
Definition _set_layer_visibility_fixed (self_psd psd : PSDImage)
    (target_color : string) : PSDImage :=
  let all_colors := all_colors self_psd in
  let step1 := map show_container (psd_layers psd) in
  let step2 := map (resolve_layer all_colors target_color root_name) step1 in
  {| psd_width := psd_width psd; psd_height := psd_height psd; psd_layers := step2 |}.

(** ** Visibility self-check *)

(** One turn of the counting loop; the pair is
    [(target_color_layers_visible, other_color_layers_visible)]. *)
Definition count_visible (all_colors : gset string) (target_color : string)
    (counts : nat * nat) (pl : string * Layer) : nat * nat :=
  let '(target_n, other_n) := counts in
  let layer_name := Py.strip (Py.lower (layer_name pl.2)) in
  let parent_name := Py.lower pl.1 in
  if bool_decide (parent_name ∈ ["colors"; "camera"; "base"])
     && bool_decide (layer_name ∈ all_colors) then
    if layer_visible pl.2 then
      if bool_decide (layer_name = Py.lower target_color)
      then (S target_n, other_n) else (target_n, S other_n)
    else counts
  else if bool_decide (parent_name ∈ all_colors) then
    if layer_visible pl.2 then
      if bool_decide (parent_name = Py.lower target_color)
      then (S target_n, other_n) else (target_n, S other_n)
    else counts
  else counts.

Definition _validate_visibility_settings (self_psd psd : PSDImage)
    (target_color : string) : bool :=
  let '(target_n, other_n) :=
    fold_left (count_visible (all_colors self_psd) target_color) (descendants psd) (0%nat, 0%nat) in
  (0 <? target_n)%nat && (other_n =? 0)%nat.

(** ** Compositor *)

(** What the module reaches outside itself: the PSD parser, the native
    compositor, and the file system. *)
Record World : Type := mkWorld {
  (** [PSDImage.open(path, ignore_unknown_layer_properties=True)] *)
  open_psd_lenient : Outcome PSDImage;
  (** [PSDImage.open(path)] *)
  open_psd : Outcome PSDImage;
  (** [psd.composite(layer_filter=lambda l: l.visible)]; it may return
      [None] *)
  composite : PSDImage -> Outcome (option Image.t);
  (** [hashlib.md5(image.tobytes()).hexdigest()] *)
  md5_pixels : Image.t -> string;
  (** [image.save(path, quality=95, subsampling=0)], then the digest of
      the file read back and its size *)
  save_jpeg : string -> Image.t -> Outcome (string * Z);
  (** [Image.open(path)] *)
  image_open : string -> Outcome Image.t;
  (** [str(Path(directory) / name)]: the path [pathlib] makes of a
      directory and a file name *)
  path_join : string -> string -> string
}.

Definition non_degenerate (im : Image.t) : bool :=
  (1 <? Image.width im) && (1 <? Image.height im).

(** Tier 1.  A [None], a degenerate image or an exception all leave
    [rendered_image] at [None]. *)
Definition native_tier (w : World) (psd : PSDImage) : option Image.t :=
  match composite w psd with
  | Return (Some rendered_image) =>
      if non_degenerate rendered_image then Some rendered_image else None
  | Return None => None
  | Raise _ => None
  end.

(** Tier 2, one turn of the loop over the layers.  A layer whose
    [topil()] gives nothing is passed over. *)
Definition flatten_layer (rendered_image : Image.t) (layer : Layer) : Image.t :=
  if layer_visible layer then
    match topil layer with
    | Some layer_img =>
        let layer_img :=
          if negb (Qle_bool 1 (opacity (attrs layer)))
          then match Image.mode layer_img with
               | Image.RGBA => Image.scale_alpha layer_img (opacity (attrs layer))
               | _ => layer_img
               end
          else layer_img in
        let '(left_, top_) := offset (attrs layer) in
        match Image.mode layer_img with
        | Image.RGBA => Image.paste rendered_image layer_img left_ top_ true
        | _ => Image.paste rendered_image layer_img left_ top_ false
        end
    | None => rendered_image
    end
  else rendered_image.

(** Tier 2: the white canvas, the layers in the order [descendants]
    yields them, and the size check at the end. *)
Definition flatten_tier (psd : PSDImage) : option Image.t :=
  match Image.new (psd_width psd) (psd_height psd) (255, 255, 255) with
  | Raise _ => None
  | Return canvas =>
      let rendered_image := fold_left flatten_layer (map snd (descendants psd)) canvas in
      if non_degenerate rendered_image then Some rendered_image else None
  end.

(** Tier 3: the red 800 x 600 image with its two lines of text. *)
Definition debug_image (color_name : string) (validation_passed : bool)
  : Outcome Image.t :=
  match Image.new 800 600 (255, 0, 0) with
  | Raise e => Raise e
  | Return debug_img =>
      let debug_img :=
        Image.draw_text debug_img 10 10 ("Render failed for: " +:+ color_name) in
      let debug_img :=
        Image.draw_text debug_img 10 50
          ("Validation: " +:+ (if validation_passed then "PASSED" else "FAILED")) in
      Return debug_img
  end.

Definition _render_layer_combination_fixed (w : World) (self_psd : PSDImage)
    (color_name : string) : Outcome Image.t :=
  match open_psd w with
  | Raise e => Raise e
  | Return psd =>
      let psd := _set_layer_visibility_fixed self_psd psd color_name in
      let validation_passed := _validate_visibility_settings self_psd psd color_name in
      let rendered_image := native_tier w psd in
      let rendered_image :=
        match rendered_image with
        | Some im => Some im
        | None => flatten_tier psd
        end in
      match rendered_image with
      | None => debug_image color_name validation_passed
      | Some rendered_image =>
          if Image.mode_eqb (Image.mode rendered_image) Image.RGB
          then Return rendered_image
          else Return (Image.convert_rgb rendered_image)
      end
  end.

Definition _render_layer_combination := _render_layer_combination_fixed.

(** ** Batch driver *)

(** One entry of the list [generate_variants] returns. *)
Record Variant : Type := mkVariant {
  filename : string;
  path : string;
  color : string;
  metalware : string;
  size : Z * Z;
  file_size : Z;
  image_hash : string;
  file_hash : string
}.

(** The processor object: [psd_path.stem], [output_dir] and [self.psd]. *)
Record PSDProcessor : Type := mkProcessor {
  stem : string;
  output_dir : string;
  psd : option PSDImage
}.

(** The state of the loop of [generate_variants]: the list built so far,
    and the colors whose render has been started. *)
Record Batch : Type := mkBatch {
  variants : list Variant;
  rendered : list string
}.

(** One turn of the loop.  The body sits in a [try] whose handler logs
    and continues, so a raise anywhere leaves [variants] as it was. *)
Definition variant_step (w : World) (self : PSDProcessor) (self_psd : PSDImage)
    (acc : Batch) (color : string) : Batch :=
  let started := rendered acc ++ [color] in
  match _render_layer_combination w self_psd color with
  | Raise _ => mkBatch (variants acc) started
  | Return variant_image =>
      if (Image.width variant_image <=? 1) || (Image.height variant_image <=? 1)
      then mkBatch (variants acc) started
      else
        let image_hash := md5_pixels w variant_image in
        let output_filename := stem self +:+ "-" +:+ color +:+ "-metalware_1.jpg" in
        let output_path := path_join w (output_dir self) output_filename in
        match save_jpeg w output_path variant_image with
        | Raise _ => mkBatch (variants acc) started
        | Return (file_hash, file_size) =>
            mkBatch
              (variants acc ++
                 [{| filename := output_filename;
                     path := output_path;
                     color := color;
                     metalware := "metalware";
                     size := Image.size variant_image;
                     file_size := file_size;
                     image_hash := image_hash;
                     file_hash := file_hash |}])
              started
        end
  end.

(** The duplicate check only logs, except that the first file is
    reopened outside any handler once there are two variants or more. *)
Definition _check_duplicate_variants (w : World) (variants : list Variant)
  : Outcome unit :=
  match variants with
  | base_variant :: _ :: _ =>
      match image_open w (path base_variant) with
      | Raise e => Raise e
      | Return _ => Return tt
      end
  | _ => Return tt
  end.

(** [generate_variants], with the colors whose render was started.  A
    document is falsy when it has no layer at all. *)
Definition generate_variants_run (w : World) (self : PSDProcessor)
  : Outcome (list Variant) * list string :=
  match psd self with
  | None => (Return [], [])
  | Some self_psd =>
      match psd_layers self_psd with
      | [] => (Return [], [])
      | _ =>
          match valid_color_names self_psd with
          | [] => (Return [], [])
          | names =>
              let final := fold_left (variant_step w self self_psd) names (mkBatch [] []) in
              match _check_duplicate_variants w (variants final) with
              | Raise e => (Raise e, rendered final)
              | Return _ => (Return (variants final), rendered final)
              end
          end
      end
  end.

Definition generate_variants (w : World) (self : PSDProcessor)
  : Outcome (list Variant) :=
  (generate_variants_run w self).1.

(** The inner [try] of [load_psd]: the parser is first called with
    [ignore_unknown_layer_properties=True], and again without it when
    that raises a [TypeError]. *)
Definition open_document (w : World) : Outcome PSDImage :=
  match open_psd_lenient w with
  | Raise TypeError => open_psd w
  | o => o
  end.

(** [load_psd]: the processor afterwards, and the result.  [self.psd] is
    assigned before the structure is validated. *)
Definition load_psd (w : World) (self : PSDProcessor) : PSDProcessor * bool :=
  match open_document w with
  | Raise _ => (self, false)
  | Return p =>
      let self := {| stem := stem self; output_dir := output_dir self; psd := Some p |} in
      if (_validate_psd_structure p).1 then (self, true) else (self, false)
  end.

(** [process], with the colors whose render was started on the way. *)
Definition process_run (w : World) (self : PSDProcessor)
  : (bool * list Variant) * list string :=
  let '(self, loaded) := load_psd w self in
  if negb loaded then ((false, []), [])
  else
    let '(result, started) := generate_variants_run w self in
    match result with
    | Raise _ => ((false, []), started)
    | Return [] => ((false, []), started)
    | Return variants => ((true, variants), started)
    end.

Definition process (w : World) (self : PSDProcessor) : bool * list Variant :=
  (process_run w self).1.

(** ** Vocabulary of the statements *)

(** The name a layer is matched under: lower-cased, then stripped. *)
Definition color_name_of (layer : Layer) : string :=
  Py.strip (Py.lower (layer_name layer)).

(** Each value once, at the place where it first occurs. *)
Fixpoint first_occurrences (l : list string) : list string :=
  match l with
  | [] => []
  | x :: rest => x :: List.filter (fun y => negb (bool_decide (y = x))) (first_occurrences rest)
  end.

(** The non-empty matching names of some layers, in order. *)
Definition color_names (ls : list Layer) : list string :=
  List.filter Py.truthy (map color_name_of ls).

(** The priority chain of the resolver, on names already normalised:
    [parent] is the parent's lower-cased name, [own] the layer's own
    lower-cased and stripped name, [target] the lower-cased target. *)
Definition priority_chain (all_colors : gset string) (target parent own : string)
  : bool :=
  if bool_decide (parent = "bg") then true
  else if bool_decide (parent ∈ ["base"; "colors"; "camera"]) then
    if bool_decide (own = target) then true
    else negb (bool_decide (own ∈ all_colors))
  else if bool_decide (parent = "@main") then
    if bool_decide (own ∈ all_colors) then bool_decide (own = target) else true
  else if bool_decide (parent ∈ all_colors) then bool_decide (parent = target)
  else true.

(** A layer of a walk, as the pair of its parent's name and its own. *)
Definition place (pl : string * Layer) : string * string :=
  (pl.1, layer_name pl.2).

(** A layer of a walk carries the flag the loop body assigns to it. *)
Definition flag_assigned (all_colors : gset string) (target : string)
    (pl : string * Layer) : Prop :=
  layer_visible pl.2 = assigned_flag all_colors target pl.1 (layer_name pl.2).

(** The flags of a document, in walk order. *)
Definition flags (psd : PSDImage) : list bool :=
  map (fun pl => layer_visible pl.2) (descendants psd).

(** The color-named direct children of a group that are visible. *)
Definition visible_color_children (all_colors : gset string) (group : Layer)
  : list Layer :=
  List.filter (fun layer => bool_decide (color_name_of layer ∈ all_colors) && layer_visible layer)
              (children group).

(** The direct children of a group that carry the target's name. *)
Definition target_children (target : string) (group : Layer) : list Layer :=
  List.filter (fun layer => bool_decide (color_name_of layer = target)) (children group).

(** After the resolver has run for [target], the group [group_name] has
    exactly one visible color-named direct child, the one named
    [target]. *)
Definition exactly_one_visible (psd : PSDImage) (target group_name : string) : Prop :=
  exists group layer,
    _get_group_by_name (_set_layer_visibility_fixed psd psd target) group_name = Some group
    /\ visible_color_children (all_colors psd) group = [layer]
    /\ color_name_of layer = target.

(** ** Sample documents *)

Definition leaf (n : string) : Layer := PixelLayer (mkAttrs n false 1 (0, 0)) None.
Definition folder (n : string) (ls : list Layer) : Layer :=
  Group (mkAttrs n false 1 (0, 0)) ls.

(** Two colors, each with a subgroup in [base]. *)
Definition two_colors : PSDImage :=
  mkPSD 4 4
    [ folder "bg" [leaf "paper"];
      folder "base" [folder "red" [leaf "shade"]; folder "blue" [leaf "shade"]];
      folder "colors" [leaf "red"; leaf "blue"];
      folder "camera" [leaf "red"; leaf "blue"];
      folder "@main" [leaf "metalware"] ].

(** The same, the red subgroup of [base] stored as ["red "]. *)
Definition two_colors_padded : PSDImage :=
  mkPSD 4 4
    [ folder "bg" [leaf "paper"];
      folder "base" [folder "red " [leaf "shade"]; folder "blue" [leaf "shade"]];
      folder "colors" [leaf "red"; leaf "blue"];
      folder "camera" [leaf "red"; leaf "blue"];
      folder "@main" [leaf "metalware"] ].

(** Two layers of [base] share the name red, up to case and padding. *)
Definition red_twice : PSDImage :=
  mkPSD 4 4
    [ folder "bg" [leaf "paper"];
      folder "base" [leaf "red"; leaf "Red "; leaf "blue"];
      folder "colors" [leaf "red"; leaf "blue"];
      folder "camera" [leaf "red"; leaf "blue"];
      folder "@main" [leaf "metalware"] ].

(** No group, only a leaf that borrows the name [bg]. *)
Definition bg_missing : PSDImage :=
  mkPSD 4 4
    [ leaf "bg";
      folder "base" [leaf "red"];
      folder "colors" [leaf "red"];
      folder "camera" [leaf "red"];
      folder "@main" [leaf "steel"] ].

(** All five groups, nothing named metalware in [@main]. *)
Definition no_metalware : PSDImage :=
  mkPSD 4 4
    [ folder "bg" [leaf "paper"];
      folder "base" [leaf "red"];
      folder "colors" [leaf "red"];
      folder "camera" [leaf "red"];
      folder "@main" [leaf "steel"] ].

(** [name] is the name of a top-level group of the document. *)
Definition has_group (psd : PSDImage) (name : string) : Prop :=
  exists layer, layer ∈ psd_layers psd /\ is_group layer = true /\ layer_name layer = name.

(** ** Vocabulary of the batch statements *)

(** The entry one turn of the loop appends for [color], if it appends
    one. *)
Definition entry (w : World) (self : PSDProcessor) (self_psd : PSDImage)
    (color : string) : option Variant :=
  head (variants (variant_step w self self_psd (mkBatch [] []) color)).

(** The turn of the loop for [color] appends an entry. *)
Definition has_entry (w : World) (self : PSDProcessor) (self_psd : PSDImage)
    (color : string) : bool :=
  match entry w self self_psd color with Some _ => true | None => false end.

(** The loop body with the test on the image size taken out. *)
Definition variant_step_unchecked (w : World) (self : PSDProcessor)
    (self_psd : PSDImage) (acc : Batch) (color : string) : Batch :=
  let started := rendered acc ++ [color] in
  match _render_layer_combination w self_psd color with
  | Raise _ => mkBatch (variants acc) started
  | Return variant_image =>
      let image_hash := md5_pixels w variant_image in
      let output_filename := stem self +:+ "-" +:+ color +:+ "-metalware_1.jpg" in
      let output_path := path_join w (output_dir self) output_filename in
      match save_jpeg w output_path variant_image with
      | Raise _ => mkBatch (variants acc) started
      | Return (file_hash, file_size) =>
          mkBatch
            (variants acc ++
               [{| filename := output_filename;
                   path := output_path;
                   color := color;
                   metalware := "metalware";
                   size := Image.size variant_image;
                   file_size := file_size;
                   image_hash := image_hash;
                   file_hash := file_hash |}])
            started
      end
  end.

(** The colors a group of the document offers, as a predicate. *)
Definition offers (psd : PSDImage) (group_name color : string) : Prop :=
  color ∈ _get_layer_colors psd group_name.

(** A world in which the parser returns [p], the native compositor
    raises, and every file operation succeeds.  Paths are joined with a
    slash, as [pathlib] joins a directory such as [/out] and a plain
    file name. *)
Definition quiet_world (p : PSDImage) : World :=
  {| open_psd_lenient := Return p;
     open_psd := Return p;
     composite := fun _ => Raise OSError;
     md5_pixels := fun _ => "d41d8cd9";
     save_jpeg := fun path _ => Return ("md5:" +:+ path, 1024);
     image_open := fun _ => Image.new 4 4 (0, 0, 0);
     path_join := fun directory name => directory +:+ "/" +:+ name |}.

(** Camera lists blue before red, the two other groups red before blue;
    green is in camera and colors only. *)
Definition camera_first : PSDImage :=
  mkPSD 4 4
    [ folder "bg" [leaf "paper"];
      folder "base" [leaf "red"; leaf "blue"];
      folder "colors" [leaf "red"; leaf "green"; leaf "blue"];
      folder "camera" [leaf "Blue"; leaf "green"; leaf " red"; leaf "blue "];
      folder "@main" [leaf "metalware"] ].

(** A document one pixel wide. *)
Definition sliver : PSDImage :=
  mkPSD 1 4
    [ folder "bg" [leaf "paper"];
      folder "base" [leaf "red"];
      folder "colors" [leaf "red"];
      folder "camera" [leaf "red"];
      folder "@main" [leaf "metalware"] ].

(** ** Vocabulary of the flatten statements *)

(** Two images that agree on mode, size, text and every pixel. *)
Definition same_image (im1 im2 : Image.t) : Prop :=
  Image.mode im1 = Image.mode im2
  /\ Image.width im1 = Image.width im2
  /\ Image.height im1 = Image.height im2
  /\ Image.text im1 = Image.text im2
  /\ forall x y, Image.getpixel im1 x y = Image.getpixel im2 x y.

(** The opaque white RGB canvas of the size of the document. *)
Definition white_canvas (psd : PSDImage) : Image.t :=
  {| Image.mode := Image.RGB;
     Image.width := psd_width psd;
     Image.height := psd_height psd;
     Image.getpixel := fun _ _ => Image.mkColor 255 255 255 255;
     Image.text := [] |}.

(** The visible layers that have pixels, with their pixels, in the
    order of the walk. *)
Definition visible_pixel_layers (psd : PSDImage) : list (Layer * Image.t) :=
  omap (fun pl => if layer_visible pl.2
                  then option_map (pair pl.2) (topil pl.2)
                  else None)
       (descendants psd).

(** One layer onto the canvas, in the words of the specification: the
    alpha channel, where the layer has one, is scaled by the opacity of
    the layer, and the layer is composited at its offset. *)
Definition composite_layer (canvas : Image.t) (li : Layer * Image.t) : Image.t :=
  let '(layer, layer_img) := li in
  let '(left_, top_) := offset (attrs layer) in
  match Image.mode layer_img with
  | Image.RGBA =>
      Image.paste canvas (Image.scale_alpha layer_img (opacity (attrs layer)))
                  left_ top_ true
  | _ => Image.paste canvas layer_img left_ top_ false
  end.

(** The manual flatten in the words of the specification, for a given
    order of the walk. *)
Definition manual_flatten
    (order : list (Layer * Image.t) -> list (Layer * Image.t))
    (psd : PSDImage) : Image.t :=
  fold_left composite_layer (order (visible_pixel_layers psd)) (white_canvas psd).

(** The opacity of a layer is a number from 0 to 1. *)
Definition opacity_in_range (layer : Layer) : bool :=
  Qle_bool 0 (opacity (attrs layer)) && Qle_bool (opacity (attrs layer)) 1.

Definition opacities_in_range (psd : PSDImage) : Prop :=
  Forall (fun pl => opacity_in_range pl.2 = true) (descendants psd).

(** A 4 x 4 image of one color. *)
Definition plain (m : Image.Mode) (c : Image.Color) : Image.t :=
  {| Image.mode := m; Image.width := 4; Image.height := 4;
     Image.getpixel := fun _ _ => c; Image.text := [] |}.

(** The background group holds two opaque layers that cover each other:
    red comes first in the stored order, blue second. *)
Definition stacked : PSDImage :=
  mkPSD 4 4
    [ folder "bg"
        [ PixelLayer (mkAttrs "back" true 1 (0, 0))
            (Some (plain Image.RGBA (Image.mkColor 255 0 0 255)));
          PixelLayer (mkAttrs "front" true 1 (0, 0))
            (Some (plain Image.RGBA (Image.mkColor 0 0 255 255))) ];
      folder "base" [leaf "red"];
      folder "colors" [leaf "red"];
      folder "camera" [leaf "red"];
      folder "@main" [leaf "metalware"] ].

(** ** Further functions of the module *)

(** [d.get(k)] on the dictionary model. *)
Fixpoint dict_get {V : Type} (d : list (string * V)) (k : string) : option V :=
  match d with
  | [] => None
  | (k', v) :: d' => if bool_decide (k' = k) then Some v else dict_get d' k
  end.

(** [_should_show_layer], the older rule: from the parent's name, the
    layer's own name and the list of names to show.  The loop returns at
    the first target found in the layer's name or in the parent's. *)
Definition _should_show_layer (parent own : string) (layers_to_show : list string)
  : bool :=
  if negb (Py.truthy own) then false
  else
    let layer_name := Py.strip (Py.lower own) in
    let parent_name := Py.lower parent in
    if bool_decide (parent_name = "@main") then true
    else if bool_decide (parent_name = "bg") then true
    else
      existsb
        (fun target =>
           let target := Py.lower target in
           Py.contains target layer_name || Py.contains target (Py.lower parent))
        layers_to_show.

(** One turn of the first loop of [_check_duplicate_variants]: the key
    is created with an empty list when it is new, then the color is
    appended to the list stored under it. *)
Definition group_step (hash_groups : list (string * list string)) (variant : Variant)
  : list (string * list string) :=
  let hash_groups :=
    if negb (bool_decide (file_hash variant ∈ map fst hash_groups))
    then dict_set hash_groups (file_hash variant) []
    else hash_groups in
  match dict_get hash_groups (file_hash variant) with
  | Some colors => dict_set hash_groups (file_hash variant) (colors ++ [color variant])
  | None => hash_groups
  end.

Definition hash_groups (variants : list Variant) : list (string * list string) :=
  fold_left group_step variants [].

(** What the second loop logs for each group: a warning for a hash that
    several colors share, an info record otherwise.  A record keeps the
    level, the hash and the colors of the message. *)
Definition duplicate_records (variants : list Variant)
  : list (Level * string * list string) :=
  map (fun group : string * list string =>
         if (1 <? length group.2)%nat
         then (WARNING, group.1, group.2)
         else (INFO, group.1, group.2))
      (hash_groups variants).

(** ** The upload service, [app.py] *)

(** [s.endswith(suffix)]: some tail of [s] is [suffix]. *)
Fixpoint endswith (s suffix : string) : bool :=
  bool_decide (s = suffix) ||
  match s with
  | EmptyString => false
  | String _ s' => endswith s' suffix
  end.

(** [s.rsplit(sep, 1)] for a one-character separator: the string cut at
    its last separator, or the string alone when it has none. *)
Fixpoint rsplit (sep : ascii) (s : string) : list string :=
  match s with
  | EmptyString => [EmptyString]
  | String c s' =>
      match rsplit sep s' with
      | [head_; tail_] => [String c head_; tail_]
      | _ => if bool_decide (c = sep) then [EmptyString; s'] else [String c s']
      end
  end.

(** [allowed_file]: the [in] test guards the index [1]. *)
Definition allowed_file (filename : string) : bool :=
  Py.contains "." filename &&
  match rsplit "." filename with
  | [_; extension] => bool_decide (Py.lower extension ∈ ["psd"])
  | _ => false
  end.

(** The name under which a downloaded file is stored: the base name of
    the path of the URL, or [upload_<job_id>.psd] when that is empty,
    with [.psd] appended unless the name already ends with it, whatever
    the case. *)
Definition download_filename (url_basename job_id : string) : string :=
  let filename :=
    if Py.truthy url_basename then url_basename
    else "upload_" +:+ job_id +:+ ".psd" in
  if negb (endswith (Py.lower filename) ".psd") then filename +:+ ".psd" else filename.

(** ** Vocabulary of the further statements *)

(** The tree with every flag cleared: what is left is everything the
    resolver must not touch. *)
Fixpoint forget_flags (l : Layer) : Layer :=
  match l with
  | PixelLayer x px => PixelLayer (set_visible false x) px
  | Group x ls => Group (set_visible false x) (map forget_flags ls)
  end.

Definition forget_document (psd : PSDImage) : PSDImage :=
  {| psd_width := psd_width psd; psd_height := psd_height psd;
     psd_layers := map forget_flags (psd_layers psd) |}.

(** None of the five group names is also the name of a color. *)
Definition groups_are_no_colors (psd : PSDImage) : Prop :=
  Forall (fun group_name => group_name ∉ all_colors psd)
         ["bg"; "base"; "colors"; "camera"; "@main"].

(** A color layer of camera is called [bg]. *)
Definition bg_is_a_color : PSDImage :=
  mkPSD 4 4
    [ folder "bg" [leaf "paper"];
      folder "base" [leaf "red"];
      folder "colors" [leaf "red"];
      folder "camera" [leaf "red"; leaf "bg"];
      folder "@main" [leaf "metalware"] ].

(** A color layer of camera is called [Root], the name of the document
    as a parent. *)
Definition root_is_a_color : PSDImage :=
  mkPSD 4 4
    [ folder "bg" [leaf "paper"];
      folder "base" [leaf "red"];
      folder "colors" [leaf "red"];
      folder "camera" [leaf "red"; leaf "Root"];
      folder "@main" [leaf "metalware"] ].

(** The colors of the variants that carry a given file hash, in the
    order of the variants. *)
Definition colors_with_hash (variants : list Variant) (h : string) : list string :=
  map color (List.filter (fun v => bool_decide (file_hash v = h)) variants).

(** * Proofs *)

Example lower_Red : Py.lower " Red Oak " = " red oak ".
Proof. reflexivity. Qed.

Example strip_Red : Py.strip "  red oak 	 " = "red oak".
Proof. reflexivity. Qed.

Example contains_metalware : Py.contains "metalware" "steel metalware 2" = true.
Proof. reflexivity. Qed.

(** ** Facts about the string helpers *)

Section StringFacts.

Local Ltac each_char c :=
  destruct c as [[] [] [] [] [] [] [] []]; vm_compute; reflexivity.

Lemma lower_char_idemp c : Py.lower_char (Py.lower_char c) = Py.lower_char c.
Proof. each_char c. Qed.

Lemma isspace_lower_char c : Py.isspace (Py.lower_char c) = Py.isspace c.
Proof. each_char c. Qed.

Lemma lower_idemp s : Py.lower (Py.lower s) = Py.lower s.
Proof.
  induction s as [|c s IH]; simpl; [reflexivity|].
  now rewrite lower_char_idemp, IH.
Qed.

Lemma lower_app s1 s2 : Py.lower (s1 +:+ s2) = Py.lower s1 +:+ Py.lower s2.
Proof. induction s1 as [|c s1 IH]; simpl; [reflexivity | now rewrite IH]. Qed.

Lemma blank_lower s : Py.blank (Py.lower s) = Py.blank s.
Proof.
  induction s as [|c s IH]; simpl; [reflexivity|].
  now rewrite isspace_lower_char, IH.
Qed.

Lemma lower_lstrip s : Py.lower (Py.lstrip s) = Py.lstrip (Py.lower s).
Proof.
  induction s as [|c s IH]; simpl; [reflexivity|].
  rewrite isspace_lower_char. destruct (Py.isspace c); [exact IH | reflexivity].
Qed.

Lemma lower_rstrip s : Py.lower (Py.rstrip s) = Py.rstrip (Py.lower s).
Proof.
  induction s as [|c s IH]; simpl; [reflexivity|].
  rewrite <- IH, isspace_lower_char.
  destruct (Py.rstrip s); simpl; [destruct (Py.isspace c)|]; reflexivity.
Qed.

Lemma lower_strip s : Py.lower (Py.strip s) = Py.strip (Py.lower s).
Proof. unfold Py.strip. now rewrite lower_rstrip, lower_lstrip. Qed.

(** A name already lower-cased and stripped is a fixed point of
    [lower]. *)
Lemma lower_normal s : Py.lower (Py.strip (Py.lower s)) = Py.strip (Py.lower s).
Proof. now rewrite lower_strip, lower_idemp. Qed.

Lemma lstrip_blank ws : Py.blank ws = true -> Py.lstrip ws = "".
Proof.
  induction ws as [|c ws IH]; simpl; [reflexivity|].
  intros [Hc Hws]%andb_true_iff. rewrite Hc. auto.
Qed.

Lemma rstrip_blank ws : Py.blank ws = true -> Py.rstrip ws = "".
Proof.
  induction ws as [|c ws IH]; simpl; [reflexivity|].
  intros [Hc Hws]%andb_true_iff. rewrite (IH Hws), Hc. reflexivity.
Qed.

Lemma lstrip_blank_app ws s : Py.blank ws = true -> Py.lstrip (ws +:+ s) = Py.lstrip s.
Proof.
  induction ws as [|c ws IH]; simpl; [reflexivity|].
  intros [Hc Hws]%andb_true_iff. rewrite Hc. auto.
Qed.

Lemma rstrip_app_blank s ws : Py.blank ws = true -> Py.rstrip (s +:+ ws) = Py.rstrip s.
Proof.
  intros Hws. induction s as [|c s IH]; simpl.
  - now apply rstrip_blank.
  - now rewrite IH.
Qed.

Lemma strip_app_blank s ws : Py.blank ws = true -> Py.strip (s +:+ ws) = Py.strip s.
Proof.
  intros Hws. unfold Py.strip. induction s as [|c s IH]; simpl.
  - change ("" +:+ ws) with ws. rewrite (lstrip_blank _ Hws). reflexivity.
  - destruct (Py.isspace c); [exact IH|].
    now apply (rstrip_app_blank (String c s)).
Qed.

(** White space around a name does not survive [strip]. *)
Lemma strip_padded ws1 s ws2 :
  Py.blank ws1 = true -> Py.blank ws2 = true ->
  Py.strip (ws1 +:+ s +:+ ws2) = Py.strip s.
Proof.
  intros H1 H2. unfold Py.strip.
  rewrite (lstrip_blank_app _ _ H1). now apply strip_app_blank.
Qed.

End StringFacts.

(** ** Facts about the accessor *)

Section AccessorFacts.

Lemma truthy_spec s : Py.truthy s = true <-> s <> "".
Proof. destruct s; simpl; split; congruence. Qed.

(** The test on the raw name is subsumed by the test on the matching
    name: an empty name has an empty matching name. *)
Lemma add_color_unfold colors layer :
  add_color colors layer =
    if Py.truthy (color_name_of layer)
       && negb (bool_decide (color_name_of layer ∈ colors))
    then colors ++ [color_name_of layer] else colors.
Proof.
  unfold add_color, color_name_of.
  destruct (layer_name layer) eqn:E; reflexivity.
Qed.

Lemma filter_filter_bool {A} (p q : A -> bool) l :
  List.filter p (List.filter q l) = List.filter (fun x => q x && p x) l.
Proof.
  induction l as [|x l IH]; simpl; [reflexivity|].
  destruct (q x); simpl; [destruct (p x)|]; now rewrite IH.
Qed.

Lemma fold_add_color ls : forall acc,
  fold_left add_color ls acc =
    acc ++ List.filter (fun y => negb (bool_decide (y ∈ acc)))
                       (first_occurrences (color_names ls)).
Proof.
  unfold color_names.
  induction ls as [|l ls IH]; intros acc; simpl.
  - now rewrite app_nil_r.
  - rewrite IH, add_color_unfold. clear IH.
    destruct (Py.truthy (color_name_of l)) eqn:Ht; simpl; [|reflexivity].
    rewrite filter_filter_bool.
    destruct (bool_decide (color_name_of l ∈ acc)) eqn:Hin; simpl.
    + f_equal. apply filter_ext. intros y.
      apply bool_decide_eq_true in Hin.
      destruct (bool_decide (y ∈ acc)) eqn:Hy; simpl; [now rewrite andb_false_r|].
      rewrite andb_true_r. symmetry. apply negb_true_iff, bool_decide_eq_false.
      intros ->. apply bool_decide_eq_false in Hy. contradiction.
    + rewrite <- app_assoc. simpl. do 2 f_equal. apply filter_ext. intros y.
      rewrite andb_comm, <- negb_orb. f_equal.
      rewrite <- bool_decide_or. apply bool_decide_ext. rewrite elem_of_app, list_elem_of_singleton. tauto.
Qed.

Lemma found_group psd group_name group :
  _get_group_by_name psd group_name = Some group ->
  In group (psd_layers psd) /\ is_group group = true /\ layer_name group = group_name.
Proof.
  unfold _get_group_by_name. intros H. apply find_some in H as [Hin H].
  apply andb_true_iff in H as [Hg Hn]. apply bool_decide_eq_true in Hn. auto.
Qed.

(** [_get_layer_colors] lists the matching names of the children of
    the group, each once, in the order of first appearance. *)
Lemma get_layer_colors_spec psd group_name :
  _get_layer_colors psd group_name =
    match _get_group_by_name psd group_name with
    | Some group => first_occurrences (color_names (children group))
    | None => []
    end.
Proof.
  unfold _get_layer_colors. destruct (_get_group_by_name psd group_name) as [group|]; [|reflexivity].
  destruct (children group) as [|l ls] eqn:E; [reflexivity|].
  rewrite fold_add_color. simpl.
  induction (first_occurrences _) as [|x xs IH]; simpl; [reflexivity | now rewrite IH].
Qed.

Lemma elem_of_filter_bool {A} (p : A -> bool) (l : list A) x :
  x ∈ List.filter p l <-> x ∈ l /\ p x = true.
Proof. rewrite !list_elem_of_In. apply filter_In. Qed.

Lemma elem_of_first_occurrences l x : x ∈ first_occurrences l <-> x ∈ l.
Proof.
  induction l as [|y l IH]; simpl; [reflexivity|].
  rewrite !elem_of_cons, elem_of_filter_bool, IH, negb_true_iff, bool_decide_eq_false.
  destruct (decide (x = y)); tauto.
Qed.

Lemma NoDup_filter_bool {A} (p : A -> bool) (l : list A) :
  NoDup l -> NoDup (List.filter p l).
Proof.
  induction 1 as [|x l Hx Hl IH]; simpl; [constructor|].
  destruct (p x); [|exact IH].
  constructor; [|exact IH]. rewrite elem_of_filter_bool. tauto.
Qed.

Lemma NoDup_first_occurrences l : NoDup (first_occurrences l).
Proof.
  induction l as [|x l IH]; simpl; constructor.
  - rewrite elem_of_filter_bool, negb_true_iff, bool_decide_eq_false. tauto.
  - now apply NoDup_filter_bool.
Qed.

Lemma NoDup_get_layer_colors psd group_name :
  NoDup (_get_layer_colors psd group_name).
Proof.
  rewrite get_layer_colors_spec.
  destruct (_get_group_by_name psd group_name);
    [apply NoDup_first_occurrences | constructor].
Qed.

(** Membership in the color list of a group. *)
Lemma elem_of_get_layer_colors psd group_name c :
  c ∈ _get_layer_colors psd group_name <->
  exists group layer,
    _get_group_by_name psd group_name = Some group /\
    layer ∈ children group /\ color_name_of layer = c /\ c <> "".
Proof.
  rewrite get_layer_colors_spec.
  destruct (_get_group_by_name psd group_name) as [group|].
  - rewrite elem_of_first_occurrences. unfold color_names.
    rewrite elem_of_filter_bool, list_elem_of_fmap, truthy_spec. split.
    + intros [(layer & -> & Hin) Hne]. eauto 8.
    + intros (g & layer & [= <-] & Hin & <- & Hne). eauto.
  - split; [intros H; inversion H | intros (? & ? & [=] & _)].
Qed.

(** *** The dictionary of [_validate_color_pairs] *)

Lemma dict_set_fresh {V} (d : list (string * V)) k v :
  k ∉ map fst d -> dict_set d k v = d ++ [(k, v)].
Proof.
  induction d as [|[k' v'] d IH]; simpl; intros Hk; [reflexivity|].
  rewrite not_elem_of_cons in Hk. destruct Hk as [Hne Hk].
  rewrite bool_decide_eq_false_2 by congruence. now rewrite IH.
Qed.

Lemma fold_dict_set {V} (f : string -> V) l : forall d,
  NoDup (map fst d ++ l) ->
  fold_left (fun d c => dict_set d c (f c)) l d = d ++ map (fun c => (c, f c)) l.
Proof.
  induction l as [|c l IH]; intros d Hnd; simpl.
  - now rewrite app_nil_r.
  - rewrite dict_set_fresh.
    + rewrite IH, <- app_assoc; [reflexivity|].
      rewrite map_app. simpl. now rewrite <- app_assoc.
    + apply NoDup_app in Hnd as (_ & Hd & _). intros Hin.
      apply (Hd _ Hin). now left.
Qed.

Lemma validate_color_pairs_spec psd :
  _validate_color_pairs psd =
    map (fun color =>
           (color,
            bool_decide (color ∈ _get_layer_colors psd "colors")
            && bool_decide (color ∈ _get_layer_colors psd "base")))
        (_get_layer_colors psd "camera").
Proof.
  unfold _validate_color_pairs.
  rewrite (fold_dict_set
             (fun color => bool_decide (color ∈ _get_layer_colors psd "colors")
                           && bool_decide (color ∈ _get_layer_colors psd "base"))).
  - reflexivity.
  - apply NoDup_get_layer_colors.
Qed.

(** The valid colors are the camera colors that the two other groups
    have too, in camera order. *)
Lemma valid_color_names_spec psd :
  valid_color_names psd =
    List.filter
      (fun color => bool_decide (color ∈ _get_layer_colors psd "colors")
                    && bool_decide (color ∈ _get_layer_colors psd "base"))
      (_get_layer_colors psd "camera").
Proof.
  unfold valid_color_names. rewrite validate_color_pairs_spec.
  induction (_get_layer_colors psd "camera") as [|c l IH]; simpl; [reflexivity|].
  destruct (_ && _); simpl; now rewrite IH.
Qed.

Lemma elem_of_valid_color_names psd c :
  c ∈ valid_color_names psd <->
  c ∈ _get_layer_colors psd "camera" /\
  c ∈ _get_layer_colors psd "colors" /\
  c ∈ _get_layer_colors psd "base".
Proof.
  rewrite valid_color_names_spec, elem_of_filter_bool, andb_true_iff,
    !bool_decide_eq_true. tauto.
Qed.

End AccessorFacts.

(** ** Facts about the visibility resolver *)

Section ResolverFacts.

Variable ac : gset string.
Variable target : string.

Lemma assigned_flag_chain parent own :
  assigned_flag ac target parent own =
    priority_chain ac (Py.lower target) (Py.lower parent) (Py.strip (Py.lower own)).
Proof.
  unfold assigned_flag, priority_chain.
  repeat (case_bool_decide; simpl); try reflexivity;
    repeat match goal with
      | H : _ ∈ _ :: _ |- _ => apply elem_of_cons in H as [H|H]
      | H : _ ∈ [] |- _ => inversion H
      | H : ¬ _ ∈ _ :: _ |- _ => apply not_elem_of_cons in H as [? H]
      end; congruence.
Qed.

Lemma name_show_container l : layer_name (show_container l) = layer_name l.
Proof.
  unfold show_container. destruct l as [x px|x ls]; simpl; [reflexivity|].
  case_bool_decide; reflexivity.
Qed.

Lemma below_show_container l : below (show_container l) = below l.
Proof.
  unfold show_container. destruct l as [x px|x ls]; simpl; [reflexivity|].
  case_bool_decide; reflexivity.
Qed.

Lemma is_group_show_container l : is_group (show_container l) = is_group l.
Proof.
  unfold show_container. destruct l as [x px|x ls]; simpl; [reflexivity|].
  case_bool_decide; reflexivity.
Qed.

Lemma children_show_container l : children (show_container l) = children l.
Proof.
  unfold show_container. destruct l as [x px|x ls]; simpl; [reflexivity|].
  case_bool_decide; reflexivity.
Qed.

Lemma name_resolve_layer parent l :
  layer_name (resolve_layer ac target parent l) = layer_name l.
Proof. destruct l; reflexivity. Qed.

Lemma is_group_resolve_layer parent l :
  is_group (resolve_layer ac target parent l) = is_group l.
Proof. destruct l; reflexivity. Qed.

Lemma children_resolve_layer parent l :
  children (resolve_layer ac target parent l) =
    map (resolve_layer ac target (layer_name l)) (children l).
Proof. destruct l; reflexivity. Qed.

(** The flag a layer ends with is the one the loop body assigns. *)
Lemma visible_resolve_layer parent l :
  layer_visible (resolve_layer ac target parent l) =
    assigned_flag ac target parent (layer_name l).
Proof. destruct l; reflexivity. Qed.

Lemma below_resolve_flags l : forall parent,
  Forall (flag_assigned ac target) (below (resolve_layer ac target parent l)).
Proof.
  induction l as [x px|x ls IH] using Layer_ind; intros parent; simpl.
  - constructor.
  - induction IH as [|c cs Hc _ IHcs]; simpl; [constructor|].
    constructor; [|apply Forall_app; split; [apply Hc | exact IHcs]].
    unfold flag_assigned. simpl.
    now rewrite visible_resolve_layer, name_resolve_layer.
Qed.

Lemma below_resolve_places l : forall parent,
  map place (below (resolve_layer ac target parent l)) = map place (below l).
Proof.
  induction l as [x px|x ls IH] using Layer_ind; intros parent; simpl.
  - reflexivity.
  - induction IH as [|c cs Hc _ IHcs]; simpl; [reflexivity|].
    rewrite !map_app, Hc, IHcs. unfold place at 1 3. simpl.
    now rewrite name_resolve_layer.
Qed.

Lemma descendants_resolved_flags ls parent :
  Forall (flag_assigned ac target)
    (flat_map (fun c => (parent, c) :: below c)
              (map (resolve_layer ac target parent) ls)).
Proof.
  induction ls as [|c cs IH]; simpl; [constructor|].
  constructor; [|apply Forall_app; split; [apply below_resolve_flags | exact IH]].
  unfold flag_assigned. simpl.
  now rewrite visible_resolve_layer, name_resolve_layer.
Qed.

Lemma descendants_resolved_places ls parent :
  map place (flat_map (fun c => (parent, c) :: below c)
                      (map (resolve_layer ac target parent) (map show_container ls)))
  = map place (flat_map (fun c => (parent, c) :: below c) ls).
Proof.
  induction ls as [|c cs IH]; simpl; [reflexivity|].
  rewrite !map_app, below_resolve_places, below_show_container, IH.
  unfold place at 1 3. simpl.
  now rewrite name_resolve_layer, name_show_container.
Qed.

End ResolverFacts.

(** C1.  After [_set_layer_visibility_fixed] the tree has the same
    layers under the same parents, and the flag of every layer is the
    result of the priority chain on the parent's lower-cased name, the
    layer's own lower-cased and stripped name, and the lower-cased
    target: parent [bg] shows; parent [base], [colors] or [camera] shows
    the target, hides any other member of [all_colors] and shows the
    rest; parent [@main] shows a color-named layer only when it is the
    target and shows the others; a parent that is a color shows exactly
    when it is the target; everything else is shown. *)
Theorem resolver_applies_priority_chain (self_psd psd : PSDImage) (target : string) :
  let resolved := _set_layer_visibility_fixed self_psd psd target in
  map place (descendants resolved) = map place (descendants psd)
  /\ Forall
       (fun pl =>
          layer_visible pl.2 =
            priority_chain (all_colors self_psd) (Py.lower target)
                           (Py.lower pl.1) (color_name_of pl.2))
       (descendants resolved).
Proof.
  simpl. unfold descendants, _set_layer_visibility_fixed. simpl. split.
  - apply descendants_resolved_places.
  - eapply Forall_impl; [apply descendants_resolved_flags|].
    intros pl Hpl. unfold flag_assigned in Hpl.
    now rewrite Hpl, assigned_flag_chain.
Qed.

(** ** Structure validator *)

Section ValidatorFacts.

Lemma elem_of_group_names psd n : n ∈ group_names psd <-> has_group psd n.
Proof.
  unfold group_names, has_group. rewrite list_elem_of_fmap. split.
  - intros (l & -> & Hl). apply elem_of_filter_bool in Hl as [Hl Hg]. eauto.
  - intros (l & Hl & Hg & <-). exists l. split; [reflexivity|].
    apply elem_of_filter_bool. auto.
Qed.

Lemma metalware_check_warns psd :
  Forall (fun record => record.1 = WARNING) (metalware_check psd).
Proof.
  unfold metalware_check.
  destruct (_get_group_by_name psd "@main") as [g|]; [|constructor].
  destruct (children g); [constructor|].
  destruct (existsb _ _); repeat constructor.
Qed.

End ValidatorFacts.

(** C7.  [_validate_psd_structure] returns false exactly when one of
    the five required names is the name of no top-level group.  When it
    returns true, all it logs comes from the check of [@main], and those
    records are warnings: a missing metalware layer never turns the
    result into false. *)
Theorem validate_false_iff_group_missing (psd : PSDImage) :
  ((_validate_psd_structure psd).1 = false <->
     exists required, required ∈ required_groups /\ ~ has_group psd required)
  /\ ((_validate_psd_structure psd).1 = true <->
        forall required, required ∈ required_groups -> has_group psd required)
  /\ ((_validate_psd_structure psd).1 = true ->
        (_validate_psd_structure psd).2 = metalware_check psd)
  /\ Forall (fun record => record.1 = WARNING) (metalware_check psd).
Proof.
  assert ((_validate_psd_structure psd).1 = false <->
          exists required, required ∈ required_groups /\ ~ has_group psd required) as Hfalse.
  { unfold _validate_psd_structure.
    destruct (List.find _ required_groups) as [r|] eqn:E; simpl.
    - apply find_some in E as [Hin Hr].
      apply negb_true_iff, bool_decide_eq_false in Hr.
      split; [intros _|reflexivity]. exists r.
      rewrite <- elem_of_group_names. split; [now apply list_elem_of_In | exact Hr].
    - split; [discriminate|]. intros (r & Hin & Hr). exfalso.
      apply list_elem_of_In in Hin.
      pose proof (find_none _ _ E r Hin) as Hf. simpl in Hf.
      apply negb_false_iff, bool_decide_eq_true in Hf.
      apply Hr, elem_of_group_names, Hf. }
  split; [exact Hfalse|]. split; [|split].
  - destruct ((_validate_psd_structure psd).1) eqn:E.
    + split; [intros _|reflexivity]. intros r Hr.
      destruct (decide (r ∈ group_names psd)) as [Hin|Hout].
      * now apply elem_of_group_names.
      * assert (true = false) as Habs; [|discriminate].
        apply Hfalse. exists r. rewrite <- elem_of_group_names. auto.
    + split; [discriminate|]. intros Hall.
      destruct (proj1 Hfalse eq_refl) as (r & Hin & Hr). destruct (Hr (Hall r Hin)).
  - unfold _validate_psd_structure.
    destruct (List.find _ required_groups); simpl; [discriminate | reflexivity].
  - apply metalware_check_warns.
Qed.

(** A leaf named [bg] does not stand for the group. *)
Example validate_bg_missing :
  _validate_psd_structure bg_missing = (false, [(ERROR, "Missing required group: bg")]).
Proof. reflexivity. Qed.

Example validate_no_metalware :
  _validate_psd_structure no_metalware
  = (true, [(WARNING, "@main group should contain metalware layer")]).
Proof. reflexivity. Qed.

(** C3, as stated, fails: white space around the target color, or around
    the name of a parent, changes the flags.  With the target ["red "]
    no layer of [two_colors] matches the target any more; with the red
    subgroup of [base] stored as ["red "] its child stays visible under
    the target ["blue"]. *)
Lemma padding_changes_flags :
  flags (_set_layer_visibility_fixed two_colors two_colors "red ")
    <> flags (_set_layer_visibility_fixed two_colors two_colors "red")
  /\ all_colors two_colors_padded = all_colors two_colors
  /\ flags (_set_layer_visibility_fixed two_colors_padded two_colors_padded "blue")
       <> flags (_set_layer_visibility_fixed two_colors two_colors "blue").
Proof.
  split; [|split].
  - vm_compute. discriminate.
  - vm_compute. reflexivity.
  - vm_compute. discriminate.
Qed.

(** C3, amended.  The flag assigned to a layer depends on the target and
    on the parent's name only up to letter case, and on the layer's own
    name only up to letter case and surrounding white space. *)
Theorem matching_is_case_blind_and_trims_own_name
    (ac : gset string) (target parent own : string) :
  (forall target' parent' own',
      Py.lower target' = Py.lower target ->
      Py.lower parent' = Py.lower parent ->
      Py.lower own' = Py.lower own ->
      assigned_flag ac target' parent' own' = assigned_flag ac target parent own)
  /\ (forall ws1 ws2,
         Py.blank ws1 = true -> Py.blank ws2 = true ->
         assigned_flag ac target parent (ws1 +:+ own +:+ ws2)
         = assigned_flag ac target parent own).
Proof.
  split.
  - intros t' p' o' Ht Hp Ho. rewrite !assigned_flag_chain. now rewrite Ht, Hp, Ho.
  - intros ws1 ws2 H1 H2. rewrite !assigned_flag_chain. f_equal.
    rewrite !lower_app. apply strip_padded; now rewrite blank_lower.
Qed.

(** ** One color branch per group *)

Section OneBranch.

Lemma elem_of_all_colors psd c :
  c ∈ all_colors psd <->
  c ∈ _get_layer_colors psd "camera" \/
  c ∈ _get_layer_colors psd "colors" \/
  c ∈ _get_layer_colors psd "base".
Proof.
  unfold all_colors. simpl.
  rewrite !elem_of_union, !elem_of_list_to_set, elem_of_empty. tauto.
Qed.

(** A color of some group is a name in normal form. *)
Lemma get_layer_colors_normal psd group_name c :
  c ∈ _get_layer_colors psd group_name -> Py.lower c = c.
Proof.
  rewrite elem_of_get_layer_colors. intros (g & l & _ & _ & <- & _).
  apply lower_normal.
Qed.

Lemma find_map_same {A} (p : A -> bool) (f : A -> A) l :
  (forall x, p (f x) = p x) ->
  List.find p (map f l) = option_map f (List.find p l).
Proof.
  intros Hp. induction l as [|x l IH]; simpl; [reflexivity|].
  rewrite Hp. destruct (p x); [reflexivity | exact IH].
Qed.

(** The resolver does not move groups: the group found under a name
    afterwards is the resolved image of the group found before. *)
Lemma get_group_resolved self_psd psd target group_name :
  _get_group_by_name (_set_layer_visibility_fixed self_psd psd target) group_name =
    option_map
      (fun g => resolve_layer (all_colors self_psd) target root_name (show_container g))
      (_get_group_by_name psd group_name).
Proof.
  unfold _get_group_by_name, _set_layer_visibility_fixed. simpl.
  rewrite map_map.
  apply (find_map_same
           (fun layer => is_group layer && bool_decide (layer_name layer = group_name))).
  intros x.
  now rewrite is_group_resolve_layer, name_resolve_layer,
    is_group_show_container, name_show_container.
Qed.

Lemma filter_map_bool {A B} (p : B -> bool) (f : A -> B) l :
  List.filter p (map f l) = map f (List.filter (fun x => p (f x)) l).
Proof.
  induction l as [|x l IH]; simpl; [reflexivity|].
  destruct (p (f x)); simpl; now rewrite IH.
Qed.

Lemma color_name_resolve_layer ac target parent l :
  color_name_of (resolve_layer ac target parent l) = color_name_of l.
Proof. unfold color_name_of. now rewrite name_resolve_layer. Qed.

(** Inside [base], [colors] or [camera], with a target in normal form
    that is itself a color: a color-named child is visible exactly
    when it carries the target's name. *)
Lemma color_child_flag ac target group_name own :
  group_name ∈ ["base"; "colors"; "camera"] ->
  Py.lower target = target -> target ∈ ac ->
  bool_decide (Py.strip (Py.lower own) ∈ ac)
    && assigned_flag ac target group_name own
  = bool_decide (Py.strip (Py.lower own) = target).
Proof.
  intros Hg Ht Hin. rewrite assigned_flag_chain, Ht. unfold priority_chain.
  assert (Py.lower group_name = group_name) as ->.
  { repeat (apply elem_of_cons in Hg as [->|Hg]; [reflexivity|]). inversion Hg. }
  assert (bool_decide (group_name = "bg") = false) as ->.
  { apply bool_decide_eq_false.
    repeat (apply elem_of_cons in Hg as [->|Hg]; [discriminate|]). inversion Hg. }
  rewrite (bool_decide_eq_true_2 _ Hg).
  repeat (case_bool_decide; simpl); subst; try reflexivity; contradiction.
Qed.

Lemma visible_color_children_resolved psd target group_name g :
  group_name ∈ ["base"; "colors"; "camera"] ->
  Py.lower target = target -> target ∈ all_colors psd ->
  layer_name g = group_name ->
  visible_color_children (all_colors psd)
    (resolve_layer (all_colors psd) target root_name (show_container g))
  = target_children target
      (resolve_layer (all_colors psd) target root_name (show_container g)).
Proof.
  intros Hg Ht Hin Hname. unfold visible_color_children, target_children.
  rewrite children_resolve_layer, name_show_container, children_show_container, Hname.
  rewrite !filter_map_bool. f_equal. apply filter_ext. intros c.
  rewrite color_name_resolve_layer, visible_resolve_layer.
  now apply color_child_flag.
Qed.

Lemma target_children_resolved ac target parent g :
  target_children target (resolve_layer ac target parent (show_container g)) =
    map (resolve_layer ac target (layer_name g)) (target_children target g).
Proof.
  unfold target_children.
  rewrite children_resolve_layer, name_show_container, children_show_container.
  rewrite filter_map_bool. f_equal. apply filter_ext. intros c.
  now rewrite color_name_resolve_layer.
Qed.

(** Distinct names leave at most one child under each name. *)
Lemma filter_by_key_NoDup {A} (f : A -> string) k l :
  NoDup (map f l) -> (length (List.filter (fun x => bool_decide (f x = k)) l) <= 1)%nat.
Proof.
  induction l as [|x l IH]; simpl; [lia|].
  intros Hnd. apply NoDup_cons in Hnd as [Hx Hnd].
  case_bool_decide as Hk; simpl; [|auto].
  destruct (List.filter (fun y => bool_decide (f y = k)) l) as [|y ys] eqn:E; [simpl; lia|].
  exfalso. apply Hx.
  assert (In y (List.filter (fun y => bool_decide (f y = k)) l)) as Hy
    by (rewrite E; now left).
  apply filter_In in Hy as [Hy Hfy]. apply bool_decide_eq_true in Hfy.
  rewrite Hk, <- Hfy. apply list_elem_of_fmap. exists y.
  split; [reflexivity | now apply list_elem_of_In].
Qed.

End OneBranch.

(** C8, as stated, fails: in [red_twice] the target ["red"] is valid and
    [base] ends with two visible color-named children. *)
Lemma two_visible_in_base :
  "red" ∈ valid_color_names red_twice
  /\ ~ exactly_one_visible red_twice "red" "base"
  /\ (exists group,
        _get_group_by_name (_set_layer_visibility_fixed red_twice red_twice "red") "base"
          = Some group
        /\ map layer_name (visible_color_children (all_colors red_twice) group)
           = ["red"; "Red "]).
Proof.
  split; [|split].
  - apply (bool_decide_unpack _). vm_compute. exact I.
  - intros (group & layer & Hg & Hv & _).
    vm_compute in Hg. injection Hg as <-.
    apply (f_equal (@length Layer)) in Hv. vm_compute in Hv. discriminate.
  - eexists. split; [vm_compute; reflexivity|]. vm_compute. reflexivity.
Qed.

(** C8, amended.  For a valid target, in each of [base], [colors] and
    [camera] the visible color-named direct children are exactly the
    direct children that carry the target's name; there is at least one
    of them; and when the direct children of the group have distinct
    names (lower-cased and stripped) there is exactly one. *)
Theorem visible_color_children_are_the_target
    (psd : PSDImage) (target group_name : string) :
  target ∈ valid_color_names psd ->
  group_name ∈ ["base"; "colors"; "camera"] ->
  exists group,
    _get_group_by_name (_set_layer_visibility_fixed psd psd target) group_name = Some group
    /\ visible_color_children (all_colors psd) group = target_children target group
    /\ (1 <= length (target_children target group))%nat
    /\ (NoDup (map color_name_of (children group)) ->
        exactly_one_visible psd target group_name).
Proof.
  intros Hvalid Hg.
  apply elem_of_valid_color_names in Hvalid as (Hcam & Hcol & Hbase).
  assert (Py.lower target = target) as Hnorm
    by (eapply get_layer_colors_normal; exact Hcam).
  assert (target ∈ all_colors psd) as Hac
    by (apply elem_of_all_colors; now left).
  assert (target ∈ _get_layer_colors psd group_name) as Hin.
  { repeat (apply elem_of_cons in Hg as [->|Hg]; [assumption|]). inversion Hg. }
  apply elem_of_get_layer_colors in Hin as (g & layer & Hfind & Hlayer & Hname & Hne).
  destruct (found_group _ _ _ Hfind) as (_ & _ & Hgname).
  set (group := resolve_layer (all_colors psd) target root_name (show_container g)).
  assert (_get_group_by_name (_set_layer_visibility_fixed psd psd target) group_name
          = Some group) as Hfound
    by (rewrite get_group_resolved, Hfind; reflexivity).
  assert (visible_color_children (all_colors psd) group = target_children target group)
    as Hsame by now apply (visible_color_children_resolved psd target group_name).
  assert (1 <= length (target_children target group))%nat as Hone.
  { unfold group. rewrite target_children_resolved, length_map.
    unfold target_children.
    assert (In layer (List.filter (fun l => bool_decide (color_name_of l = target)) (children g)))
      as Hl.
    { apply filter_In. split; [now apply list_elem_of_In|].
      now apply bool_decide_eq_true. }
    destruct (List.filter _ (children g)); [destruct Hl | simpl; lia]. }
  exists group. repeat split; try assumption.
  intros Hnd. exists group.
  pose proof (filter_by_key_NoDup color_name_of target (children group) Hnd) as Hle.
  fold (target_children target group) in Hle.
  destruct (target_children target group) as [|c [|c' cs]] eqn:E; simpl in *; try lia.
  exists c. repeat split; try assumption.
  assert (In c (target_children target group)) as Hc by (rewrite E; now left).
  apply filter_In in Hc as [_ Hc]. now apply bool_decide_eq_true in Hc.
Qed.

(** The amended statement at [two_colors], target ["blue"], group
    [base]. *)
Lemma visible_color_children_are_the_target_witness :
  exists group,
    _get_group_by_name (_set_layer_visibility_fixed two_colors two_colors "blue") "base"
      = Some group
    /\ visible_color_children (all_colors two_colors) group = target_children "blue" group
    /\ (1 <= length (target_children "blue" group))%nat
    /\ (NoDup (map color_name_of (children group)) ->
        exactly_one_visible two_colors "blue" "base").
Proof.
  apply (visible_color_children_are_the_target two_colors "blue" "base").
  - apply (bool_decide_unpack _). vm_compute. exact I.
  - apply (bool_decide_unpack _). vm_compute. exact I.
Defined.

(** ** Facts about the batch driver *)

Section BatchFacts.

Variable w : World.
Variable self : PSDProcessor.
Variable self_psd : PSDImage.

(** One turn appends the entry of its color, if there is one, and
    records the color as started. *)
Lemma variant_step_entry acc c :
  variant_step w self self_psd acc c =
    mkBatch (variants acc ++ option_list (entry w self self_psd c))
            (rendered acc ++ [c]).
Proof.
  unfold entry, variant_step.
  destruct (_render_layer_combination w self_psd c) as [im|e]; simpl;
    [|now rewrite app_nil_r].
  destruct ((Image.width im <=? 1) || (Image.height im <=? 1)); simpl;
    [now rewrite app_nil_r|].
  destruct (save_jpeg w _ im) as [[fh fs]|e]; simpl;
    [reflexivity | now rewrite app_nil_r].
Qed.

Lemma entry_color c v : entry w self self_psd c = Some v -> color v = c.
Proof.
  unfold entry, variant_step.
  destruct (_render_layer_combination w self_psd c) as [im|e]; simpl; [|discriminate].
  destruct ((Image.width im <=? 1) || (Image.height im <=? 1)); simpl; [discriminate|].
  destruct (save_jpeg w _ im) as [[fh fs]|e]; simpl; [|discriminate].
  now intros [= <-].
Qed.

Lemma fold_variant_step names : forall acc,
  fold_left (variant_step w self self_psd) names acc =
    mkBatch (variants acc ++ omap (entry w self self_psd) names)
            (rendered acc ++ names).
Proof.
  induction names as [|c names IH]; intros acc; simpl.
  - now rewrite !app_nil_r; destruct acc.
  - rewrite IH, variant_step_entry. simpl.
    rewrite <- !app_assoc. simpl.
    destruct (entry w self self_psd c); reflexivity.
Qed.

(** The colors of the entries are the colors that got one, in the
    order of the loop. *)
Lemma colors_of_entries names :
  map color (omap (entry w self self_psd) names) =
    List.filter (has_entry w self self_psd) names.
Proof.
  induction names as [|c names IH]; simpl; [reflexivity|].
  unfold has_entry at 1.
  destruct (entry w self self_psd c) as [v|] eqn:E; simpl.
  - rewrite (entry_color _ _ E). f_equal. exact IH.
  - exact IH.
Qed.

End BatchFacts.

Section RunFacts.

Variable w : World.
Variable self : PSDProcessor.
Variable p : PSDImage.
Hypothesis loaded : psd self = Some p.

Lemma no_layers_no_colors group_name :
  psd_layers p = [] -> _get_layer_colors p group_name = [].
Proof.
  intros E. unfold _get_layer_colors, _get_group_by_name. now rewrite E.
Qed.

(** The renders started by [generate_variants] are those of the valid
    colors, in order. *)
Lemma generate_variants_started :
  (generate_variants_run w self).2 = valid_color_names p.
Proof.
  unfold generate_variants_run. rewrite loaded.
  destruct (psd_layers p) eqn:El.
  - rewrite valid_color_names_spec, (no_layers_no_colors "camera" El). reflexivity.
  - destruct (valid_color_names p) as [|c names] eqn:Ev; [reflexivity|].
    rewrite fold_variant_step.
    destruct (_check_duplicate_variants _ _); reflexivity.
Qed.

(** What [generate_variants] returns, when it returns. *)
Lemma generate_variants_returns vs :
  generate_variants w self = Return vs ->
  vs = omap (entry w self p) (valid_color_names p).
Proof.
  unfold generate_variants, generate_variants_run. rewrite loaded.
  destruct (psd_layers p) eqn:El.
  - rewrite valid_color_names_spec, (no_layers_no_colors "camera" El). simpl.
    now intros [= <-].
  - destruct (valid_color_names p) as [|c names] eqn:Ev; [now intros [= <-]|].
    rewrite fold_variant_step.
    destruct (_check_duplicate_variants _ _); [now intros [= <-] | discriminate].
Qed.

End RunFacts.

(** C2.  A color is valid exactly when the camera, colors and base
    groups all offer it.  [generate_variants] starts a render for the
    valid colors and for no other, and every variant it returns carries
    a valid color: the colors of the variants are the valid colors whose
    turn of the loop produced an entry. *)
Theorem variants_only_for_colors_in_all_three
    (w : World) (stem_ out : string) (p : PSDImage) :
  let self := mkProcessor stem_ out (Some p) in
  (forall c, c ∈ valid_color_names p <->
             offers p "camera" c /\ offers p "colors" c /\ offers p "base" c)
  /\ (generate_variants_run w self).2 = valid_color_names p
  /\ (forall vs, generate_variants w self = Return vs ->
        map color vs =
          List.filter (has_entry w self p) (valid_color_names p))
  /\ (forall vs v, generate_variants w self = Return vs -> v ∈ vs ->
        offers p "camera" (color v) /\ offers p "colors" (color v)
        /\ offers p "base" (color v)).
Proof.
  simpl. split; [|split; [|split]].
  - intros c. apply elem_of_valid_color_names.
  - now apply generate_variants_started.
  - intros vs Hvs. rewrite (generate_variants_returns w (mkProcessor stem_ out (Some p)) p eq_refl vs Hvs).
    apply colors_of_entries.
  - intros vs v Hvs Hv.
    apply elem_of_valid_color_names.
    assert (color v ∈ map color vs) as Hc by (apply list_elem_of_fmap; eauto).
    rewrite (generate_variants_returns w (mkProcessor stem_ out (Some p)) p eq_refl vs Hvs), colors_of_entries in Hc.
    now apply elem_of_filter_bool in Hc as [Hc _].
Qed.

(** Green is in camera and colors but not in base: it is not valid, no
    render is started for it, and no variant carries it. *)
Example green_is_left_out :
  offers camera_first "camera" "green"
  /\ ~ offers camera_first "base" "green"
  /\ valid_color_names camera_first = ["blue"; "red"]
  /\ option_map (map color) 
       (match generate_variants (quiet_world camera_first)
                (mkProcessor "doc" "/out" (Some camera_first)) with
        | Return vs => Some vs | Raise _ => None end)
     = Some ["blue"; "red"].
Proof.
  unfold offers. split; [|split; [|split]].
  - apply (bool_decide_unpack _). vm_compute. exact I.
  - intros H. apply (bool_decide_pack _) in H. vm_compute in H. exact H.
  - vm_compute. reflexivity.
  - vm_compute. reflexivity.
Qed.

(** C10.  The variants come in camera order: their colors are the
    colors of the camera group, each at its first appearance among the
    lower-cased, stripped, non-empty names of the direct children,
    filtered by membership in the two other groups and by the success of
    the turn; the order of the colors and base groups plays no part. *)
Theorem variants_follow_camera_order
    (w : World) (stem_ out : string) (p : PSDImage) (vs : list Variant) :
  let self := mkProcessor stem_ out (Some p) in
  generate_variants w self = Return vs ->
  map color vs =
    List.filter
      (fun c => bool_decide (c ∈ _get_layer_colors p "colors")
                && bool_decide (c ∈ _get_layer_colors p "base")
                && has_entry w self p c)
      (match _get_group_by_name p "camera" with
       | Some camera => first_occurrences (color_names (children camera))
       | None => []
       end)
  /\ sublist (map color vs) (_get_layer_colors p "camera").
Proof.
  simpl. intros Hvs.
  rewrite (generate_variants_returns w (mkProcessor stem_ out (Some p)) p eq_refl vs Hvs), colors_of_entries.
  rewrite valid_color_names_spec, filter_filter_bool, <- get_layer_colors_spec.
  split; [reflexivity|].
  induction (_get_layer_colors p "camera") as [|c l IH]; simpl; [constructor|].
  destruct (_ && _); [now apply sublist_skip | now apply sublist_cons].
Qed.

(** The camera order at [camera_first]: blue before red, although the
    two other groups list red first. *)
Lemma variants_follow_camera_order_witness :
  exists vs,
    generate_variants (quiet_world camera_first)
      (mkProcessor "doc" "/out" (Some camera_first)) = Return vs
    /\ map color vs = ["blue"; "red"]
    /\ _get_layer_colors camera_first "colors" = ["red"; "green"; "blue"]
    /\ sublist (map color vs) (_get_layer_colors camera_first "camera").
Proof.
  eexists. split; [vm_compute; reflexivity|].
  split; [reflexivity|]. split; [reflexivity|].
  apply (variants_follow_camera_order (quiet_world camera_first) "doc" "/out" camera_first).
  vm_compute. reflexivity.
Defined.

(** ** Facts about the compositor *)

Section RenderFacts.

Variable w : World.

Lemma native_tier_non_degenerate psd im :
  native_tier w psd = Some im -> non_degenerate im = true.
Proof.
  unfold native_tier. destruct (composite w psd) as [[im'|]|e]; try discriminate.
  destruct (non_degenerate im') eqn:E; [|discriminate]. now intros [= <-].
Qed.

Lemma flatten_tier_non_degenerate psd im :
  flatten_tier psd = Some im -> non_degenerate im = true.
Proof.
  unfold flatten_tier. destruct (Image.new _ _ _) as [canvas|e]; [|discriminate].
  destruct (non_degenerate _) eqn:E; [|discriminate]. now intros [= <-].
Qed.

Lemma non_degenerate_spec im :
  non_degenerate im = true <-> 1 < Image.width im /\ 1 < Image.height im.
Proof. unfold non_degenerate. rewrite andb_true_iff, !Z.ltb_lt. tauto. Qed.

(** The placeholder is always built, and is 800 by 600. *)
Lemma debug_image_returns color_name validation_passed :
  exists img,
    debug_image color_name validation_passed = Return img
    /\ Image.size img = (800, 600)
    /\ map snd (Image.text img) =
         [ "Render failed for: " +:+ color_name;
           "Validation: " +:+ (if validation_passed then "PASSED" else "FAILED") ].
Proof. eexists. repeat split. Qed.

(** With both tiers empty-handed the render is the placeholder. *)
Lemma render_placeholder self_psd color_name p :
  open_psd w = Return p ->
  native_tier w (_set_layer_visibility_fixed self_psd p color_name) = None ->
  flatten_tier (_set_layer_visibility_fixed self_psd p color_name) = None ->
  _render_layer_combination_fixed w self_psd color_name =
    debug_image color_name
      (_validate_visibility_settings self_psd
         (_set_layer_visibility_fixed self_psd p color_name) color_name).
Proof.
  intros Ho Hn Hf. unfold _render_layer_combination_fixed. now rewrite Ho, Hn, Hf.
Qed.

Lemma render_non_degenerate self_psd color_name img :
  _render_layer_combination_fixed w self_psd color_name = Return img ->
  non_degenerate img = true.
Proof.
  unfold _render_layer_combination_fixed.
  destruct (open_psd w) as [p|e]; [|discriminate].
  destruct (native_tier w _) as [im|] eqn:En.
  - apply native_tier_non_degenerate in En.
    destruct (Image.mode_eqb _ _); intros [= <-]; exact En.
  - destruct (flatten_tier _) as [im|] eqn:Ef.
    + apply flatten_tier_non_degenerate in Ef.
      destruct (Image.mode_eqb _ _); intros [= <-]; exact Ef.
    + intros [= <-]. reflexivity.
Qed.

Lemma size_test_never_fires self_psd color_name img :
  _render_layer_combination w self_psd color_name = Return img ->
  (Image.width img <=? 1) || (Image.height img <=? 1) = false.
Proof.
  intros H. apply render_non_degenerate, non_degenerate_spec in H as [Hw Hh].
  apply orb_false_iff. split; apply Z.leb_gt; assumption.
Qed.

Lemma rendered_fold self self_psd names acc :
  rendered (fold_left (variant_step w self self_psd) names acc) = rendered acc ++ names.
Proof. now rewrite fold_variant_step. Qed.

End RenderFacts.

(** C5.  When the native composite and the manual flatten both leave
    nothing usable, the render returns, and what it returns is the
    800 x 600 placeholder whose two lines of text name the target color
    and say whether the visibility self-check passed; the loop of
    [generate_variants] then goes on to the colors that remain. *)
Theorem placeholder_instead_of_failure
    (w : World) (self_psd p : PSDImage) (color_name : string) :
  let resolved := _set_layer_visibility_fixed self_psd p color_name in
  open_psd w = Return p ->
  native_tier w resolved = None ->
  flatten_tier resolved = None ->
  exists img,
    _render_layer_combination_fixed w self_psd color_name = Return img
    /\ Image.size img = (800, 600)
    /\ map snd (Image.text img) =
         [ "Render failed for: " +:+ color_name;
           "Validation: " +:+
             (if _validate_visibility_settings self_psd resolved color_name
              then "PASSED" else "FAILED") ]
    /\ (forall self acc rest,
          rendered (fold_left (variant_step w self self_psd) (color_name :: rest) acc)
          = rendered acc ++ color_name :: rest).
Proof.
  simpl. intros Ho Hn Hf.
  destruct (debug_image_returns color_name
              (_validate_visibility_settings self_psd
                 (_set_layer_visibility_fixed self_psd p color_name) color_name))
    as (img & Himg & Hsize & Htext).
  exists img. rewrite (render_placeholder w _ _ _ Ho Hn Hf).
  repeat split; try assumption.
  intros self acc rest. exact (rendered_fold w self self_psd (color_name :: rest) acc).
Qed.

(** The placeholder for a document one pixel wide whose native composite
    raises. *)
Lemma placeholder_instead_of_failure_witness :
  exists img,
    _render_layer_combination_fixed (quiet_world sliver) sliver "red" = Return img
    /\ Image.size img = (800, 600)
    /\ map snd (Image.text img) = ["Render failed for: red"; "Validation: PASSED"].
Proof.
  destruct (placeholder_instead_of_failure (quiet_world sliver) sliver sliver "red")
    as (img & Hr & Hs & Ht & _); try reflexivity.
  exists img. repeat split; assumption.
Defined.

(** C9.  An image the render returns is more than one pixel wide and
    more than one pixel high, on the native path, the flatten path and
    the placeholder path alike.  So the size test of [generate_variants]
    never fires: the loop body is the body without the test, and a color
    that ends with the placeholder gets its entry whenever the file is
    saved. *)
Theorem render_never_degenerate (w : World) (self_psd : PSDImage) (color_name : string) :
  (forall img,
      _render_layer_combination_fixed w self_psd color_name = Return img ->
      1 < Image.width img /\ 1 < Image.height img)
  /\ (forall self acc,
        variant_step w self self_psd acc color_name
        = variant_step_unchecked w self self_psd acc color_name)
  /\ (forall self p img digest bytes,
        open_psd w = Return p ->
        native_tier w (_set_layer_visibility_fixed self_psd p color_name) = None ->
        flatten_tier (_set_layer_visibility_fixed self_psd p color_name) = None ->
        _render_layer_combination_fixed w self_psd color_name = Return img ->
        save_jpeg w
          (path_join w (output_dir self)
             (stem self +:+ "-" +:+ color_name +:+ "-metalware_1.jpg"))
          img = Return (digest, bytes) ->
        exists v, entry w self self_psd color_name = Some v
                  /\ color v = color_name /\ size v = (800, 600)).
Proof.
  split; [|split].
  - intros img H. now apply non_degenerate_spec, (render_non_degenerate w self_psd color_name).
  - intros self acc. unfold variant_step, variant_step_unchecked.
    destruct (_render_layer_combination w self_psd color_name) as [img|e] eqn:E;
      [|reflexivity].
    now rewrite (size_test_never_fires w _ _ _ E).
  - intros self p img digest bytes Ho Hn Hf Hr Hs.
    pose proof (size_test_never_fires w _ _ _ Hr) as Hsize.
    destruct (debug_image_returns color_name
                (_validate_visibility_settings self_psd
                   (_set_layer_visibility_fixed self_psd p color_name) color_name))
      as (img' & Himg & Hdim & _).
    rewrite (render_placeholder w _ _ _ Ho Hn Hf), Himg in Hr. injection Hr as ->.
    unfold entry, variant_step.
    unfold _render_layer_combination. rewrite (render_placeholder w _ _ _ Ho Hn Hf), Himg.
    rewrite Hsize, Hs. simpl. eexists. repeat split. exact Hdim.
Qed.

(** ** The result of a run *)

Section ProcessFacts.

Variable w : World.
Variable self : PSDProcessor.




End ProcessFacts.


(** A run that succeeds: the two variants of [camera_first], returned
    as [generate_variants] made them. *)
Example process_returns_the_variants :
  exists vs,
    generate_variants (quiet_world camera_first)
      (mkProcessor "doc" "/out" (Some camera_first)) = Return vs
    /\ map color vs = ["blue"; "red"]
    /\ process (quiet_world camera_first) (mkProcessor "doc" "/out" None) = (true, vs).
Proof.
  eexists. split; [vm_compute; reflexivity|]. split; reflexivity.
Qed.

(** A document without the [bg] group: [(false, [])], and no render. *)
Example process_bg_missing :
  process_run (quiet_world bg_missing) (mkProcessor "doc" "/out" None)
  = ((false, []), []).
Proof. reflexivity. Qed.

(** All five groups but no color shared by the three: no exception,
    no variant, [(false, [])]. *)
Example process_no_valid_color :
  generate_variants (quiet_world (mkPSD 4 4
      [ folder "bg" []; folder "base" [leaf "red"]; folder "colors" [leaf "blue"];
        folder "camera" [leaf "red"]; folder "@main" [] ]))
    (mkProcessor "doc" "/out" (Some (mkPSD 4 4
      [ folder "bg" []; folder "base" [leaf "red"]; folder "colors" [leaf "blue"];
        folder "camera" [leaf "red"]; folder "@main" [] ])))
  = Return []
  /\ process (quiet_world (mkPSD 4 4
      [ folder "bg" []; folder "base" [leaf "red"]; folder "colors" [leaf "blue"];
        folder "camera" [leaf "red"]; folder "@main" [] ]))
       (mkProcessor "doc" "/out" None)
     = (false, []).
Proof. split; reflexivity. Qed.

(** ** The manual flatten *)

Section FlattenFacts.

Lemma same_image_refl im : same_image im im.
Proof. repeat split. Qed.

Lemma paste_same c c' im im' l t m :
  same_image c c' -> same_image im im' ->
  same_image (Image.paste c im l t m) (Image.paste c' im' l t m).
Proof.
  intros (Hm & Hw & Hh & Ht & Hp) (Hm' & Hw' & Hh' & Ht' & Hp').
  repeat split; simpl; try assumption.
  intros x y. now rewrite Hw', Hh', Hp, Hp'.
Qed.

Lemma py_round_comp x y : (x == y)%Q -> Image.py_round x = Image.py_round y.
Proof.
  intros H. unfold Image.py_round.
  rewrite (Qfloor_comp _ _ H).
  assert ((x - inject_Z (Qfloor y) ?= 1 # 2)%Q = (y - inject_Z (Qfloor y) ?= 1 # 2)%Q)
    as -> by now rewrite H.
  reflexivity.
Qed.

Lemma py_round_Z z : Image.py_round (inject_Z z) = z.
Proof.
  unfold Image.py_round. rewrite Qfloor_Z.
  assert ((inject_Z z - inject_Z z ?= 1 # 2)%Q = Lt) as ->; [|reflexivity].
  apply (proj1 (Qlt_alt _ _)). unfold Qlt. simpl. lia.
Qed.

(** Scaling by an opacity of one changes no pixel. *)
Lemma scale_alpha_one im o :
  Qle_bool 1 o = true -> Qle_bool o 1 = true ->
  same_image (Image.scale_alpha im o) im.
Proof.
  intros H1 H2. apply Qle_bool_iff in H1, H2.
  assert (o == 1)%Q as Ho by now apply Qle_antisym.
  repeat split. intros x y. simpl.
  rewrite (py_round_comp _ (inject_Z (Image.a (Image.getpixel im x y)))).
  - rewrite py_round_Z. now destruct (Image.getpixel im x y).
  - rewrite Ho. ring.
Qed.

(** One turn of the loop of the code against the composition of the
    specification. *)
Lemma flatten_layer_same c c' layer :
  same_image c c' -> opacity_in_range layer = true ->
  same_image (flatten_layer c layer)
    (match (if layer_visible layer then option_map (pair layer) (topil layer) else None) with
     | Some li => composite_layer c' li
     | None => c'
     end).
Proof.
  intros Hc Hr. unfold flatten_layer, composite_layer, opacity_in_range in *.
  apply andb_true_iff in Hr as [_ Hle].
  destruct (layer_visible layer); [|exact Hc].
  destruct (topil layer) as [img|]; simpl; [|exact Hc].
  destruct (offset (attrs layer)) as [l t].
  destruct (Qle_bool 1 (opacity (attrs layer))) eqn:Hone; simpl.
  - destruct (Image.mode img) eqn:Hm; apply paste_same;
      try exact Hc; try apply same_image_refl.
    destruct (scale_alpha_one img _ Hone Hle) as (H1 & H2 & H3 & H4 & H5).
    repeat split; auto.
  - destruct (Image.mode img) eqn:Hm; simpl; rewrite ?Hm;
      apply paste_same; try exact Hc; apply same_image_refl.
Qed.

Lemma fold_flatten_same ds : forall c c',
  same_image c c' ->
  Forall (fun pl => opacity_in_range pl.2 = true) ds ->
  same_image
    (fold_left flatten_layer (map snd ds) c)
    (fold_left composite_layer
       (omap (fun pl : string * Layer =>
                if layer_visible pl.2 then option_map (pair pl.2) (topil pl.2) else None)
             ds) c').
Proof.
  induction ds as [|pl ds IH]; intros c c' Hc Hr; simpl; [exact Hc|].
  apply Forall_cons in Hr as [Hpl Hr].
  pose proof (flatten_layer_same c c' pl.2 Hc Hpl) as Hstep.
  destruct (if layer_visible pl.2 then option_map (pair pl.2) (topil pl.2) else None)
    as [li|]; simpl; now apply IH.
Qed.

Lemma width_flatten_layer c layer :
  Image.width (flatten_layer c layer) = Image.width c
  /\ Image.height (flatten_layer c layer) = Image.height c
  /\ Image.mode (flatten_layer c layer) = Image.mode c.
Proof.
  unfold flatten_layer. destruct (layer_visible layer); [|auto].
  destruct (topil layer) as [img|]; [|auto].
  destruct (offset (attrs layer)).
  destruct (negb _); destruct (Image.mode img) eqn:Hm; simpl; rewrite ?Hm; simpl; auto.
Qed.

Lemma size_fold_flatten ls : forall c,
  Image.width (fold_left flatten_layer ls c) = Image.width c
  /\ Image.height (fold_left flatten_layer ls c) = Image.height c
  /\ Image.mode (fold_left flatten_layer ls c) = Image.mode c.
Proof.
  induction ls as [|l ls IH]; intros c; simpl; [auto|].
  destruct (IH (flatten_layer c l)) as (-> & -> & ->). apply width_flatten_layer.
Qed.

(** The manual flatten gives up exactly on a document that is at most
    one pixel wide or high. *)
Lemma flatten_tier_None psd :
  flatten_tier psd = None <-> psd_width psd <= 1 \/ psd_height psd <= 1.
Proof.
  unfold flatten_tier, Image.new.
  destruct ((psd_width psd <? 0) || (psd_height psd <? 0)) eqn:Hneg.
  - split; [intros _|reflexivity].
    apply orb_true_iff in Hneg as [H|H]; apply Z.ltb_lt in H; lia.
  - unfold non_degenerate.
    destruct (size_fold_flatten (map snd (descendants psd))
                {| Image.mode := Image.RGB; Image.width := psd_width psd;
                   Image.height := psd_height psd;
                   Image.getpixel := fun _ _ => Image.mkColor 255 255 255 255;
                   Image.text := [] |}) as (-> & -> & _). simpl.
    destruct (1 <? psd_width psd) eqn:Hw; destruct (1 <? psd_height psd) eqn:Hh; simpl;
      rewrite ?Z.ltb_lt, ?Z.ltb_ge in *; split; try discriminate; try reflexivity; lia.
Qed.

Lemma flatten_tier_forward psd im :
  opacities_in_range psd ->
  flatten_tier psd = Some im ->
  same_image im (manual_flatten (fun l => l) psd).
Proof.
  intros Hr. unfold flatten_tier, Image.new, manual_flatten, visible_pixel_layers.
  destruct ((psd_width psd <? 0) || (psd_height psd <? 0)); [discriminate|].
  destruct (non_degenerate _); [|discriminate]. intros [= <-].
  apply fold_flatten_same; [apply same_image_refl | exact Hr].
Qed.

(** What the manual flatten returns is an RGB image of the size of the
    document. *)
Lemma flatten_tier_shape psd im :
  flatten_tier psd = Some im ->
  Image.mode im = Image.RGB /\ Image.size im = (psd_width psd, psd_height psd).
Proof.
  unfold flatten_tier, Image.new.
  destruct ((psd_width psd <? 0) || (psd_height psd <? 0)); [discriminate|].
  destruct (non_degenerate _); [|discriminate]. intros [= <-].
  unfold Image.size.
  destruct (size_fold_flatten (map snd (descendants psd))
              {| Image.mode := Image.RGB; Image.width := psd_width psd;
                 Image.height := psd_height psd;
                 Image.getpixel := fun _ _ => Image.mkColor 255 255 255 255;
                 Image.text := [] |}) as (-> & -> & ->).
  split; reflexivity.
Qed.

(** After a native tier that left nothing, the render returns what the
    manual flatten made. *)
Lemma render_returns_flatten w self_psd p color_name im :
  open_psd w = Return p ->
  native_tier w (_set_layer_visibility_fixed self_psd p color_name) = None ->
  flatten_tier (_set_layer_visibility_fixed self_psd p color_name) = Some im ->
  _render_layer_combination_fixed w self_psd color_name = Return im.
Proof.
  intros Ho Hn Hf. unfold _render_layer_combination_fixed. rewrite Ho, Hn, Hf.
  destruct (flatten_tier_shape _ _ Hf) as [-> _]. reflexivity.
Qed.

End FlattenFacts.

(** C4, as stated, fails: the manual flatten does not walk the layers
    in the reverse of the stored order.  In [stacked] the red layer is
    stored before the blue one; the code pastes red and then blue, so
    the pixel at the origin ends blue, where the reverse walk would
    leave it red. *)
Lemma flatten_is_not_the_reverse_walk :
  opacities_in_range (_set_layer_visibility_fixed stacked stacked "red")
  /\ exists im,
       flatten_tier (_set_layer_visibility_fixed stacked stacked "red") = Some im
       /\ _render_layer_combination_fixed (quiet_world stacked) stacked "red" = Return im
       /\ Image.getpixel im 0 0 = Image.mkColor 0 0 255 255
       /\ Image.getpixel
            (manual_flatten (@rev _) (_set_layer_visibility_fixed stacked stacked "red")) 0 0
          = Image.mkColor 255 0 0 255
       /\ ~ same_image im
             (manual_flatten (@rev _) (_set_layer_visibility_fixed stacked stacked "red")).
Proof.
  split.
  - unfold opacities_in_range. vm_compute. repeat constructor.
  - eexists. split; [reflexivity|]. split; [reflexivity|].
    split; [vm_compute; reflexivity|]. split; [vm_compute; reflexivity|].
    intros (_ & _ & _ & _ & Hpx). specialize (Hpx 0 0).
    vm_compute in Hpx. discriminate.
Qed.

(** C4, amended.  With every opacity between 0 and 1, the manual
    flatten gives nothing exactly when the document is at most one pixel
    wide or high; otherwise its result is an RGB image of the size of
    the document, equal pixel for pixel to the opaque white canvas onto
    which the visible layers that have pixels were composited one after
    the other in the stored order of the walk, first to last, each with
    its alpha channel scaled by its opacity and at its stored offset;
    and when the native tier left nothing, that image is what the render
    returns. *)
Theorem flatten_walks_in_stored_order (psd : PSDImage) :
  opacities_in_range psd ->
  (flatten_tier psd = None <-> psd_width psd <= 1 \/ psd_height psd <= 1)
  /\ (forall im,
        flatten_tier psd = Some im ->
        same_image im (manual_flatten (fun l => l) psd)
        /\ Image.mode im = Image.RGB
        /\ Image.size im = (psd_width psd, psd_height psd))
  /\ (forall w self_psd p color_name im,
        psd = _set_layer_visibility_fixed self_psd p color_name ->
        open_psd w = Return p ->
        native_tier w psd = None ->
        flatten_tier psd = Some im ->
        _render_layer_combination_fixed w self_psd color_name = Return im).
Proof.
  intros Hr. split; [apply flatten_tier_None|]. split.
  - intros im Him. split; [now apply flatten_tier_forward|].
    now apply flatten_tier_shape.
  - intros w self_psd p color_name im -> Ho Hn Hf.
    now apply (render_returns_flatten w self_psd p).
Qed.

(** The amended statement at [stacked], resolved for red: the result is
    the forward walk, blue over red. *)
Lemma flatten_walks_in_stored_order_witness :
  exists im,
    flatten_tier (_set_layer_visibility_fixed stacked stacked "red") = Some im
    /\ same_image im
         (manual_flatten (fun l => l) (_set_layer_visibility_fixed stacked stacked "red"))
    /\ Image.getpixel
         (manual_flatten (fun l => l) (_set_layer_visibility_fixed stacked stacked "red")) 0 0
       = Image.mkColor 0 0 255 255.
Proof.
  eexists. split; [reflexivity|]. split; [|vm_compute; reflexivity].
  apply (flatten_walks_in_stored_order (_set_layer_visibility_fixed stacked stacked "red")).
  - unfold opacities_in_range. vm_compute. repeat constructor.
  - reflexivity.
Defined.


(** * Further properties *)

(** ** Lookup of groups and colors *)

Section LookupFacts.

Lemma rstrip_idemp s : Py.rstrip (Py.rstrip s) = Py.rstrip s.
Proof.
  induction s as [|c s IH]; simpl; [reflexivity|].
  destruct (Py.rstrip s) as [|c' r] eqn:E.
  - destruct (Py.isspace c) eqn:Hc; simpl; [reflexivity | now rewrite Hc].
  - simpl in *. now rewrite IH.
Qed.

(** [rstrip] keeps the first character of a string that does not start
    with white space. *)
Lemma lstrip_rstrip_fixed s : Py.lstrip s = s -> Py.lstrip (Py.rstrip s) = Py.rstrip s.
Proof.
  destruct s as [|c s]; simpl; [reflexivity|].
  destruct (Py.isspace c) eqn:Hc.
  - intros H. exfalso.
    assert (String.length (Py.lstrip s) <= String.length s)%nat as Hlen.
    { clear. induction s as [|c s IH]; simpl; [lia|].
      destruct (Py.isspace c); simpl; lia. }
    rewrite H in Hlen. simpl in Hlen. lia.
  - intros _. destruct (Py.rstrip s); simpl; now rewrite Hc.
Qed.

Lemma lstrip_idemp s : Py.lstrip (Py.lstrip s) = Py.lstrip s.
Proof.
  induction s as [|c s IH]; simpl; [reflexivity|].
  destruct (Py.isspace c) eqn:Hc; [exact IH | simpl; now rewrite Hc].
Qed.

Lemma strip_idemp s : Py.strip (Py.strip s) = Py.strip s.
Proof.
  unfold Py.strip.
  rewrite (lstrip_rstrip_fixed (Py.lstrip s)) by apply lstrip_idemp.
  apply rstrip_idemp.
Qed.

(** The first layer that passes a test, with what comes before it. *)
Lemma find_first {A} (p : A -> bool) l x :
  List.find p l = Some x ->
  exists before after,
    l = before ++ x :: after /\ p x = true /\ Forall (fun y => p y = false) before.
Proof.
  induction l as [|y l IH]; simpl; [discriminate|].
  destruct (p y) eqn:Hy.
  - intros [= ->]. exists [], l. repeat split; [exact Hy | constructor].
  - intros H. destruct (IH H) as (before & after & -> & Hx & Hb).
    exists (y :: before), after. repeat split; [exact Hx | now constructor].
Qed.

Lemma get_group_None psd n : _get_group_by_name psd n = None <-> ~ has_group psd n.
Proof.
  unfold _get_group_by_name, has_group. split.
  - intros H (l & Hl & Hg & Hn). apply list_elem_of_In in Hl.
    pose proof (find_none _ _ H l Hl) as Hf. simpl in Hf.
    rewrite Hg, (bool_decide_eq_true_2 _ Hn) in Hf. discriminate.
  - intros H. destruct (List.find _ _) as [g|] eqn:E; [|reflexivity].
    exfalso. apply H. apply find_some in E as [Hin Hp].
    apply andb_true_iff in Hp as [Hg Hn]. apply bool_decide_eq_true in Hn.
    exists g. repeat split; [now apply list_elem_of_In | exact Hg | exact Hn].
Qed.

End LookupFacts.

(** X1.  [_get_group_by_name] finds nothing exactly when no top-level
    group carries the name; what it finds is a top-level group of that
    exact name before which no other top-level group carries it; and a
    document that passed [_validate_psd_structure] has a group to be
    found under each of the five required names. *)
Theorem get_group_by_name_first_match (psd : PSDImage) (group_name : string) :
  (_get_group_by_name psd group_name = None <-> ~ has_group psd group_name)
  /\ (forall group,
        _get_group_by_name psd group_name = Some group ->
        is_group group = true /\ layer_name group = group_name
        /\ exists before after,
             psd_layers psd = before ++ group :: after
             /\ Forall (fun l => ~ (is_group l = true /\ layer_name l = group_name)) before)
  /\ ((_validate_psd_structure psd).1 = true ->
      forall required, required ∈ required_groups ->
        exists group, _get_group_by_name psd required = Some group).
Proof.
  split; [apply get_group_None|]. split.
  - intros group H. destruct (found_group _ _ _ H) as (_ & Hg & Hn).
    repeat split; try assumption.
    apply find_first in H as (before & after & Hl & _ & Hb).
    exists before, after. split; [exact Hl|].
    eapply Forall_impl; [exact Hb|]. intros l Hl' [Hg' Hn']. simpl in Hl'.
    rewrite Hg', (bool_decide_eq_true_2 _ Hn') in Hl'. discriminate.
  - intros Hv required Hr.
    destruct (_get_group_by_name psd required) as [g|] eqn:E; [eauto|].
    exfalso. apply get_group_None in E. apply E.
    assert (forall r, r ∈ required_groups -> has_group psd r) as Hall; [|now apply Hall].
    unfold _validate_psd_structure in Hv.
    destruct (List.find _ required_groups) as [r|] eqn:Ef; [discriminate|].
    intros r Hin. apply list_elem_of_In in Hin.
    pose proof (find_none _ _ Ef r Hin) as Hf. simpl in Hf.
    apply negb_false_iff, bool_decide_eq_true in Hf. now apply elem_of_group_names.
Qed.

(** X2.  The colors [_get_layer_colors] returns are pairwise distinct,
    non-empty, and in normal form: lower-casing or stripping one again
    gives it back.  A name is returned exactly when it is the non-empty
    normal form of the name of a direct child of the first top-level
    group called [group_name]; without such a group the list is empty. *)
Theorem layer_colors_distinct_and_normal (psd : PSDImage) (group_name : string) :
  NoDup (_get_layer_colors psd group_name)
  /\ Forall (fun c => c <> "" /\ Py.lower c = c /\ Py.strip c = c)
            (_get_layer_colors psd group_name)
  /\ (forall c,
        c ∈ _get_layer_colors psd group_name <->
        c <> "" /\ exists group layer,
          _get_group_by_name psd group_name = Some group
          /\ layer ∈ children group /\ Py.strip (Py.lower (layer_name layer)) = c)
  /\ (~ has_group psd group_name -> _get_layer_colors psd group_name = []).
Proof.
  split; [apply NoDup_get_layer_colors|]. split; [|split].
  - apply Forall_forall. intros c Hc.
    apply elem_of_get_layer_colors in Hc as (g & l & _ & _ & <- & Hne).
    split; [exact Hne|]. split; [apply lower_normal|]. apply strip_idemp.
  - intros c. rewrite elem_of_get_layer_colors. unfold color_name_of. split.
    + intros (g & l & H1 & H2 & H3 & H4). eauto 8.
    + intros (H4 & g & l & H1 & H2 & H3). eauto 8.
  - intros H. apply get_group_None in H. unfold _get_layer_colors. now rewrite H.
Qed.

(** ** The dictionary of color pairs *)

Section DictFacts.

Lemma dict_get_map (f : string -> bool) l k :
  dict_get (map (fun c => (c, f c)) l) k = if bool_decide (k ∈ l) then Some (f k) else None.
Proof.
  induction l as [|c l IH]; simpl; [reflexivity|].
  destruct (decide (c = k)) as [->|Hc].
  - rewrite (bool_decide_eq_true_2 (k = k)) by reflexivity.
    rewrite (bool_decide_eq_true_2 (k ∈ k :: l)) by (apply elem_of_cons; now left).
    reflexivity.
  - rewrite (bool_decide_eq_false_2 (c = k)) by exact Hc.
    rewrite IH.
    rewrite (bool_decide_ext (k ∈ l) (k ∈ c :: l)); [reflexivity|].
    rewrite elem_of_cons. split; [tauto|].
    intros [->|H]; [contradiction | exact H].
Qed.

End DictFacts.

(** X3.  The dictionary [_validate_color_pairs] builds has one key per
    camera color, in camera order; looking a color up gives [True]
    exactly when the colors and base groups offer it too, [False] for a
    camera color one of them lacks, and nothing for a name camera does
    not offer. *)
Theorem color_pairs_lookup (psd : PSDImage) :
  map fst (_validate_color_pairs psd) = _get_layer_colors psd "camera"
  /\ forall c,
       dict_get (_validate_color_pairs psd) c =
         if bool_decide (c ∈ _get_layer_colors psd "camera")
         then Some (bool_decide (c ∈ _get_layer_colors psd "colors")
                    && bool_decide (c ∈ _get_layer_colors psd "base"))
         else None.
Proof.
  rewrite validate_color_pairs_spec. split.
  - rewrite map_map. simpl. apply map_id.
  - intros c.
    apply (dict_get_map
             (fun color => bool_decide (color ∈ _get_layer_colors psd "colors")
                           && bool_decide (color ∈ _get_layer_colors psd "base"))).
Qed.

(** ** What the resolver leaves alone *)

Section FrameFacts.

Variable ac : gset string.
Variable target : string.

Lemma set_visible_twice v v' x : set_visible v (set_visible v' x) = set_visible v x.
Proof. reflexivity. Qed.

Lemma forget_resolve_layer l : forall parent,
  forget_flags (resolve_layer ac target parent l) = forget_flags l.
Proof.
  induction l as [x px|x ls IH] using Layer_ind; intros parent; simpl; [reflexivity|].
  f_equal. rewrite map_map. apply map_ext_Forall.
  eapply Forall_impl; [exact IH|]. intros c Hc. apply Hc.
Qed.

Lemma forget_show_container l : forget_flags (show_container l) = forget_flags l.
Proof.
  unfold show_container. destruct l as [x px|x ls]; simpl; [reflexivity|].
  case_bool_decide; reflexivity.
Qed.

(** The resolver reads nothing but what [forget_flags] keeps. *)
Lemma resolve_layer_forget l : forall parent,
  resolve_layer ac target parent (forget_flags l) = resolve_layer ac target parent l.
Proof.
  induction l as [x px|x ls IH] using Layer_ind; intros parent; simpl; [reflexivity|].
  f_equal. rewrite map_map. apply map_ext_Forall.
  eapply Forall_impl; [exact IH|]. intros c Hc. apply Hc.
Qed.

Lemma resolve_show_container l parent :
  resolve_layer ac target parent (show_container l) = resolve_layer ac target parent l.
Proof.
  unfold show_container. destruct l as [x px|x ls]; simpl; [reflexivity|].
  case_bool_decide; reflexivity.
Qed.

End FrameFacts.

Section DocumentFrame.

Variable self_psd : PSDImage.

Lemma resolved_layers psd target :
  psd_layers (_set_layer_visibility_fixed self_psd psd target) =
    map (fun l => resolve_layer (all_colors self_psd) target root_name (forget_flags l))
        (psd_layers psd).
Proof.
  unfold _set_layer_visibility_fixed. simpl. rewrite map_map.
  apply map_ext. intros l. now rewrite resolve_show_container, resolve_layer_forget.
Qed.

Lemma resolver_reads_no_flags psd psd' target :
  forget_document psd = forget_document psd' ->
  _set_layer_visibility_fixed self_psd psd target
  = _set_layer_visibility_fixed self_psd psd' target.
Proof.
  intros H. injection H as Hw Hh Hl.
  destruct (_set_layer_visibility_fixed self_psd psd target) as [w h ls] eqn:E1.
  destruct (_set_layer_visibility_fixed self_psd psd' target) as [w' h' ls'] eqn:E2.
  pose proof (resolved_layers psd target) as R1. rewrite E1 in R1. simpl in R1.
  pose proof (resolved_layers psd' target) as R2. rewrite E2 in R2. simpl in R2.
  unfold _set_layer_visibility_fixed in E1, E2.
  injection E1 as <- <- _. injection E2 as <- <- _.
  rewrite Hw, Hh, R1, R2. f_equal.
  rewrite <- (map_map forget_flags), <- (map_map forget_flags (fun l => resolve_layer _ _ _ l)).
  now rewrite Hl.
Qed.

Lemma resolver_changes_flags_only psd target :
  forget_document (_set_layer_visibility_fixed self_psd psd target) = forget_document psd.
Proof.
  unfold forget_document, _set_layer_visibility_fixed. simpl. f_equal.
  rewrite !map_map. apply map_ext. intros l.
  now rewrite forget_resolve_layer, forget_show_container.
Qed.

End DocumentFrame.

(** X4.  [_set_layer_visibility_fixed] changes nothing but visibility
    flags, and the flags it sets do not depend on the flags the document
    had: two documents that differ in flags only resolve to the same
    document.  So resolving again gives the same document, and resolving
    for a second target a document already resolved for a first one
    gives what the second target gives on the untouched document. *)
Theorem resolver_overwrites_every_flag
    (self_psd psd : PSDImage) (target other_target : string) :
  forget_document (_set_layer_visibility_fixed self_psd psd target) = forget_document psd
  /\ (forall psd',
        forget_document psd' = forget_document psd ->
        _set_layer_visibility_fixed self_psd psd' target
        = _set_layer_visibility_fixed self_psd psd target)
  /\ _set_layer_visibility_fixed self_psd
       (_set_layer_visibility_fixed self_psd psd target) target
     = _set_layer_visibility_fixed self_psd psd target
  /\ _set_layer_visibility_fixed self_psd
       (_set_layer_visibility_fixed self_psd psd other_target) target
     = _set_layer_visibility_fixed self_psd psd target.
Proof.
  split; [apply resolver_changes_flags_only|]. split; [|split].
  - intros psd' H. now apply resolver_reads_no_flags.
  - apply resolver_reads_no_flags, resolver_changes_flags_only.
  - apply resolver_reads_no_flags, resolver_changes_flags_only.
Qed.

(** ** Top-level layers, and targets told apart *)

Section FlagFacts.

Variable self_psd : PSDImage.

Lemma top_level_flag psd target l :
  l ∈ psd_layers (_set_layer_visibility_fixed self_psd psd target) ->
  layer_visible l =
    if bool_decide ("root" ∈ all_colors self_psd)
    then bool_decide ("root" = Py.lower target) else true.
Proof.
  unfold _set_layer_visibility_fixed. simpl.
  rewrite map_map. intros (l0 & -> & _)%list_elem_of_fmap.
  rewrite visible_resolve_layer, assigned_flag_chain.
  unfold priority_chain, root_name.
  change (Py.lower "Root") with "root".
  rewrite (bool_decide_eq_false_2 ("root" = "bg")) by discriminate.
  rewrite (bool_decide_eq_false_2 ("root" ∈ ["base"; "colors"; "camera"])).
  - rewrite (bool_decide_eq_false_2 ("root" = "@main")) by discriminate. reflexivity.
  - rewrite !elem_of_cons, elem_of_nil. intros [H|[H|[H|[]]]]; discriminate.
Qed.

Lemma resolved_places_and_flags psd target :
  map place (descendants (_set_layer_visibility_fixed self_psd psd target))
  = map place (descendants psd)
  /\ Forall (flag_assigned (all_colors self_psd) target)
            (descendants (_set_layer_visibility_fixed self_psd psd target)).
Proof.
  unfold descendants, _set_layer_visibility_fixed. simpl. split.
  - apply descendants_resolved_places.
  - apply descendants_resolved_flags.
Qed.

(** The flags after the resolver, read off the places of the document. *)
Lemma flags_resolved psd target :
  flags (_set_layer_visibility_fixed self_psd psd target) =
    map (fun pp => assigned_flag (all_colors self_psd) target pp.1 pp.2)
        (map place (descendants psd)).
Proof.
  destruct (resolved_places_and_flags psd target) as [Hp Hf].
  rewrite <- Hp. unfold flags. rewrite map_map.
  apply map_ext_Forall.
  eapply Forall_impl; [exact Hf|].
  intros pl H. exact H.
Qed.

Lemma child_in_descendants psd group_name group c :
  _get_group_by_name psd group_name = Some group ->
  c ∈ children group ->
  (group_name, c) ∈ descendants psd.
Proof.
  intros Hf Hc. destruct (found_group _ _ _ Hf) as (Hin & Hg & Hn).
  unfold descendants. apply list_elem_of_In, in_flat_map.
  exists group. split; [exact Hin|]. right.
  destruct group as [x px|x ls]; [discriminate|]. simpl in *.
  apply in_flat_map. exists c. split; [now apply list_elem_of_In|].
  left. unfold layer_name in Hn. simpl in Hn. now rewrite Hn.
Qed.

Lemma map_eq_at {A B} (f g : A -> B) l x :
  map f l = map g l -> x ∈ l -> f x = g x.
Proof.
  induction l as [|y l IH]; simpl; intros Heq Hx; [inversion Hx|].
  injection Heq as Hhd Htl.
  apply elem_of_cons in Hx as [->|Hx]; [exact Hhd | now apply IH].
Qed.

End FlagFacts.

(** X5.  After the resolver every top-level layer is visible, the five
    container groups included, unless some color of the document is
    called [root], the lower-cased name of the document as a parent:
    then the top-level layers are all visible for the target [root] and
    all hidden for any other target, the container groups that step 1
    had just shown among them. *)
Theorem top_level_layers_share_one_flag
    (self_psd psd : PSDImage) (target : string) :
  ("root" ∉ all_colors self_psd ->
     Forall (fun l => layer_visible l = true)
            (psd_layers (_set_layer_visibility_fixed self_psd psd target)))
  /\ ("root" ∈ all_colors self_psd ->
        Forall (fun l => layer_visible l = bool_decide (Py.lower target = "root"))
               (psd_layers (_set_layer_visibility_fixed self_psd psd target))).
Proof.
  split; intros Hroot; apply Forall_forall; intros l Hl;
    rewrite (top_level_flag self_psd psd target l Hl).
  - now rewrite bool_decide_eq_false_2.
  - rewrite bool_decide_eq_true_2 by exact Hroot.
    apply bool_decide_ext. split; congruence.
Qed.

(** In [root_is_a_color] camera has a layer called [Root]: for the
    target [red] the five groups all end hidden. *)
Lemma top_level_layers_share_one_flag_witness :
  "root" ∈ all_colors root_is_a_color
  /\ map (fun l => (layer_name l, layer_visible l))
         (psd_layers (_set_layer_visibility_fixed root_is_a_color root_is_a_color "red"))
     = [("bg", false); ("base", false); ("colors", false); ("camera", false);
        ("@main", false)]
  /\ Forall (fun l => layer_visible l = bool_decide (Py.lower "red" = "root"))
            (psd_layers (_set_layer_visibility_fixed root_is_a_color root_is_a_color "red")).
Proof.
  split; [apply (bool_decide_unpack _); vm_compute; exact I|].
  split; [vm_compute; reflexivity|].
  apply (top_level_layers_share_one_flag root_is_a_color root_is_a_color "red").
  apply (bool_decide_unpack _). vm_compute. exact I.
Defined.

(** X6.  Two distinct valid target colors never resolve to the same
    flags: the camera layer that carries the first color is visible for
    the first target and hidden for the second. *)
Theorem distinct_targets_distinct_flags (psd : PSDImage) (target1 target2 : string) :
  target1 ∈ valid_color_names psd ->
  target2 ∈ valid_color_names psd ->
  target1 <> target2 ->
  flags (_set_layer_visibility_fixed psd psd target1)
  <> flags (_set_layer_visibility_fixed psd psd target2).
Proof.
  intros H1 H2 Hne Heq.
  apply elem_of_valid_color_names in H1 as (Hcam1 & _ & _).
  apply elem_of_valid_color_names in H2 as (Hcam2 & _ & _).
  pose proof (get_layer_colors_normal _ _ _ Hcam1) as Hn1.
  pose proof (get_layer_colors_normal _ _ _ Hcam2) as Hn2.
  assert (target1 ∈ all_colors psd) as Hac1 by (apply elem_of_all_colors; now left).
  assert (target2 ∈ all_colors psd) as Hac2 by (apply elem_of_all_colors; now left).
  apply elem_of_get_layer_colors in Hcam1 as (g & c & Hfind & Hc & Hname & _).
  pose proof (child_in_descendants _ _ _ _ Hfind Hc) as Hin.
  rewrite !flags_resolved in Heq.
  assert (place ("camera", c) ∈ map place (descendants psd)) as Hplace
    by (apply list_elem_of_fmap; eauto).
  assert (assigned_flag (all_colors psd) target1 "camera" (layer_name c)
          = assigned_flag (all_colors psd) target2 "camera" (layer_name c)) as Hsame.
  { exact (map_eq_at _ _ _ _ Heq Hplace). }
  assert ("camera" ∈ ["base"; "colors"; "camera"]) as Hg
    by (rewrite !elem_of_cons; auto).
  pose proof (color_child_flag (all_colors psd) target1 "camera" (layer_name c) Hg Hn1 Hac1)
    as F1.
  pose proof (color_child_flag (all_colors psd) target2 "camera" (layer_name c) Hg Hn2 Hac2)
    as F2.
  unfold color_name_of in Hname. rewrite Hname in F1, F2.
  rewrite (bool_decide_eq_true_2 _ Hac1) in F1, F2. simpl in F1, F2.
  rewrite (bool_decide_eq_true_2 (target1 = target1)) in F1 by reflexivity.
  rewrite (bool_decide_eq_false_2 (target1 = target2)) in F2 by exact Hne.
  congruence.
Qed.

(** Blue and red in [camera_first]. *)
Lemma distinct_targets_distinct_flags_witness :
  flags (_set_layer_visibility_fixed camera_first camera_first "blue")
  <> flags (_set_layer_visibility_fixed camera_first camera_first "red")
  /\ valid_color_names camera_first = ["blue"; "red"].
Proof.
  split; [|vm_compute; reflexivity].
  apply (distinct_targets_distinct_flags camera_first "blue" "red").
  - apply (bool_decide_unpack _). vm_compute. exact I.
  - apply (bool_decide_unpack _). vm_compute. exact I.
  - discriminate.
Defined.

(** ** The visibility self-check *)

Section SelfCheckFacts.

Variable ac : gset string.
Variable target : string.

(** A turn of the counting loop never takes a count down. *)
Lemma count_visible_mono counts pl :
  (counts.1 <= (count_visible ac target counts pl).1)%nat
  /\ (counts.2 <= (count_visible ac target counts pl).2)%nat.
Proof.
  unfold count_visible. destruct counts as [a b]. simpl.
  destruct (_ && _); [|destruct (bool_decide (_ ∈ ac))];
    try destruct (layer_visible pl.2); try destruct (bool_decide (_ = _));
    simpl; lia.
Qed.

Lemma fold_count_mono l : forall counts,
  (counts.1 <= (fold_left (count_visible ac target) l counts).1)%nat.
Proof.
  induction l as [|pl l IH]; intros counts; simpl; [lia|].
  specialize (IH (count_visible ac target counts pl)).
  pose proof (count_visible_mono counts pl). lia.
Qed.

(** Without the target among the colors, no turn counts a target
    layer. *)
Lemma count_visible_no_target counts pl :
  Py.lower target ∉ ac ->
  (count_visible ac target counts pl).1 = counts.1.
Proof.
  intros Hno. unfold count_visible. destruct counts as [a b]. simpl.
  destruct (bool_decide (Py.lower pl.1 ∈ ["colors"; "camera"; "base"])); simpl.
  - case_bool_decide as Hin; simpl.
    + destruct (layer_visible pl.2); [|reflexivity].
      case_bool_decide as Heq; [|reflexivity]. rewrite Heq in Hin. contradiction.
    + case_bool_decide as Hp; [|reflexivity].
      destruct (layer_visible pl.2); [|reflexivity].
      case_bool_decide as Heq; [|reflexivity]. rewrite Heq in Hp. contradiction.
  - case_bool_decide as Hp; [|reflexivity].
    destruct (layer_visible pl.2); [|reflexivity].
    case_bool_decide as Heq; [|reflexivity]. rewrite Heq in Hp. contradiction.
Qed.

(** On a layer that carries the flag of the resolver, and with no group
    name among the colors, no turn counts a layer of another color. *)
Lemma count_visible_no_other counts pl :
  Forall (fun group_name => group_name ∉ ac) ["bg"; "base"; "colors"; "camera"; "@main"] ->
  flag_assigned ac target pl ->
  (count_visible ac target counts pl).2 = counts.2.
Proof.
  intros Hgroups Hflag.
  apply Forall_cons in Hgroups as [Hbg Hgroups].
  apply Forall_cons in Hgroups as [Hbase Hgroups].
  apply Forall_cons in Hgroups as [Hcolors Hgroups].
  apply Forall_cons in Hgroups as [Hcamera Hgroups].
  apply Forall_cons in Hgroups as [Hmain _].
  unfold flag_assigned in Hflag. rewrite assigned_flag_chain in Hflag.
  unfold count_visible, priority_chain in *. destruct counts as [a b]. simpl.
  rewrite Hflag. unfold layer_name.
  repeat (case_bool_decide; simpl); try reflexivity;
    repeat match goal with
      | H : _ ∈ _ :: _ |- _ => apply elem_of_cons in H as [H|H]
      | H : _ ∈ [] |- _ => inversion H
      | H : ¬ _ ∈ _ :: _ |- _ => apply not_elem_of_cons in H as [? H]
      end; try congruence.
Qed.

Lemma fold_count_no_other l : forall counts,
  Forall (fun group_name => group_name ∉ ac) ["bg"; "base"; "colors"; "camera"; "@main"] ->
  Forall (flag_assigned ac target) l ->
  (fold_left (count_visible ac target) l counts).2 = counts.2.
Proof.
  induction l as [|pl l IH]; intros counts Hg Hl; simpl; [reflexivity|].
  apply Forall_cons in Hl as [Hpl Hl].
  rewrite (IH _ Hg Hl). now apply count_visible_no_other.
Qed.

Lemma fold_count_no_target l : forall counts,
  Py.lower target ∉ ac ->
  (fold_left (count_visible ac target) l counts).1 = counts.1.
Proof.
  induction l as [|pl l IH]; intros counts Hno; simpl; [reflexivity|].
  rewrite (IH _ Hno). now apply count_visible_no_target.
Qed.

(** A visible layer of camera, colors or base that carries the
    target's name is counted. *)
Lemma count_visible_hit counts pl :
  Py.lower pl.1 ∈ ["colors"; "camera"; "base"] ->
  Py.strip (Py.lower (layer_name pl.2)) = Py.lower target ->
  Py.lower target ∈ ac ->
  layer_visible pl.2 = true ->
  (count_visible ac target counts pl).1 = S counts.1.
Proof.
  intros Hp Hn Hin Hv. unfold count_visible. destruct counts as [a b]. simpl.
  rewrite (bool_decide_eq_true_2 _ Hp), Hn, (bool_decide_eq_true_2 _ Hin), Hv. simpl.
  now rewrite bool_decide_eq_true_2.
Qed.

Lemma fold_count_hit l pl : forall counts,
  pl ∈ l ->
  (forall counts', (count_visible ac target counts' pl).1 = S counts'.1) ->
  (counts.1 < (fold_left (count_visible ac target) l counts).1)%nat.
Proof.
  induction l as [|pl' l IH]; intros counts Hin Hhit; [inversion Hin|]. simpl.
  apply elem_of_cons in Hin as [<-|Hin].
  - pose proof (fold_count_mono l (count_visible ac target counts pl)).
    rewrite Hhit in H. lia.
  - specialize (IH (count_visible ac target counts pl') Hin Hhit).
    pose proof (count_visible_mono counts pl'). lia.
Qed.

End SelfCheckFacts.

(** X7.  On the document the resolver has just resolved for one of its
    colors, the self-check passes, provided none of the five group names
    is itself the name of a color. *)
Theorem self_check_passes_after_resolver (psd : PSDImage) (target : string) :
  groups_are_no_colors psd ->
  target ∈ all_colors psd ->
  _validate_visibility_settings psd (_set_layer_visibility_fixed psd psd target) target
  = true.
Proof.
  intros Hgroups Hac.
  assert (Py.lower target = target) as Hnorm.
  { apply elem_of_all_colors in Hac as [H|[H|H]];
      eapply get_layer_colors_normal; exact H. }
  assert (exists group_name group c,
             group_name ∈ ["colors"; "camera"; "base"]
             /\ _get_group_by_name psd group_name = Some group
             /\ c ∈ children group /\ color_name_of c = target)
    as (group_name & group & c & Hg & Hfind & Hc & Hname).
  { apply elem_of_all_colors in Hac as [H|[H|H]];
      apply elem_of_get_layer_colors in H as (g & c & Hf & Hc & Hn & _);
      eexists _, g, c; (split; [|eauto]); rewrite !elem_of_cons; auto. }
  destruct (resolved_places_and_flags psd psd target) as [Hplaces Hflags].
  pose proof (child_in_descendants _ _ _ _ Hfind Hc) as Hin.
  assert (place (group_name, c)
            ∈ map place (descendants (_set_layer_visibility_fixed psd psd target)))
    as Hplace by (rewrite Hplaces; apply list_elem_of_fmap; eauto).
  apply list_elem_of_fmap in Hplace as (pl & Hpl & Hin').
  injection Hpl as Hp1 Hp2.
  pose proof (proj1 (Forall_forall _ _) Hflags pl Hin') as Hflag.
  assert (Py.lower group_name = group_name) as Hlow.
  { repeat (apply elem_of_cons in Hg as [->|Hg]; [reflexivity|]). inversion Hg. }
  unfold _validate_visibility_settings.
  destruct (fold_left _ _ _) as [target_n other_n] eqn:E.
  assert (other_n = 0%nat) as ->.
  { change other_n with ((target_n, other_n).2). rewrite <- E.
    now rewrite (fold_count_no_other _ _ _ _ Hgroups Hflags). }
  assert (0 < target_n)%nat as Hpos.
  { change target_n with ((target_n, 0%nat).1). rewrite <- E.
    apply (fold_count_hit _ _ _ pl (0%nat, 0%nat) Hin'). intros counts'.
    apply count_visible_hit.
    - rewrite <- Hp1, Hlow. exact Hg.
    - rewrite <- Hp2. unfold color_name_of in Hname. now rewrite Hname, Hnorm.
    - now rewrite Hnorm.
    - unfold flag_assigned in Hflag. rewrite Hflag, <- Hp1, <- Hp2.
      assert (group_name ∈ ["base"; "colors"; "camera"]) as Hg'
        by (rewrite !elem_of_cons in *; tauto).
      pose proof (color_child_flag (all_colors psd) target group_name (layer_name c)
                    Hg' Hnorm Hac) as F.
      unfold color_name_of in Hname. rewrite Hname in F.
      rewrite (bool_decide_eq_true_2 _ Hac) in F. simpl in F.
      now rewrite F, bool_decide_eq_true_2. }
  apply andb_true_iff. split; [now apply Nat.ltb_lt | reflexivity].
Qed.

(** The self-check after the resolver at [two_colors], target blue; and
    the same check at [bg_is_a_color], where a color is called [bg]: the
    flags are those of the resolver, yet the check fails, because the
    layer of the background group is counted as a layer of the color
    [bg]. *)
Lemma self_check_passes_after_resolver_witness :
  _validate_visibility_settings two_colors
    (_set_layer_visibility_fixed two_colors two_colors "blue") "blue" = true
  /\ _validate_visibility_settings bg_is_a_color
       (_set_layer_visibility_fixed bg_is_a_color bg_is_a_color "red") "red" = false.
Proof.
  split; [|vm_compute; reflexivity].
  apply (self_check_passes_after_resolver two_colors "blue").
  - unfold groups_are_no_colors.
    repeat constructor; intros H; apply (bool_decide_pack _) in H; vm_compute in H; exact H.
  - apply (bool_decide_unpack _). vm_compute. exact I.
Defined.

(** X8.  For a target that is no color of the document the self-check
    fails on any document, whatever its flags: nothing is ever counted
    as a layer of the target. *)
Theorem self_check_fails_without_target_color
    (self_psd psd : PSDImage) (target : string) :
  Py.lower target ∉ all_colors self_psd ->
  _validate_visibility_settings self_psd psd target = false.
Proof.
  intros Hno. unfold _validate_visibility_settings.
  destruct (fold_left _ _ _) as [target_n other_n] eqn:E.
  assert (target_n = 0%nat) as ->; [|reflexivity].
  change target_n with ((target_n, other_n).1). rewrite <- E.
  now rewrite fold_count_no_target.
Qed.

(** Green is no color of [two_colors]. *)
Lemma self_check_fails_without_target_color_witness :
  _validate_visibility_settings two_colors
    (_set_layer_visibility_fixed two_colors two_colors "green") "green" = false.
Proof.
  apply (self_check_fails_without_target_color two_colors).
  intros H. apply (bool_decide_pack _) in H. vm_compute in H. exact H.
Defined.

(** ** Loading, and the entries of a run *)

Section EntryFacts.

Lemma string_length_app s1 s2 :
  String.length (s1 +:+ s2) = (String.length s1 + String.length s2)%nat.
Proof. induction s1 as [|c s1 IH]; simpl; [reflexivity | now rewrite IH]. Qed.

(** A common suffix can be cancelled. *)
Lemma string_app_inv_tail s1 : forall s2 t, s1 +:+ t = s2 +:+ t -> s1 = s2.
Proof.
  induction s1 as [|c s1 IH]; intros [|c' s2] t H; simpl in H.
  - reflexivity.
  - apply (f_equal String.length) in H.
    rewrite !string_length_app in H. simpl in H. lia.
  - apply (f_equal String.length) in H.
    rewrite !string_length_app in H. simpl in H. lia.
  - injection H as -> H. f_equal. now apply (IH s2 t).
Qed.

Lemma filename_inj stem_ c1 c2 :
  stem_ +:+ "-" +:+ c1 +:+ "-metalware_1.jpg" = stem_ +:+ "-" +:+ c2 +:+ "-metalware_1.jpg" ->
  c1 = c2.
Proof.
  intros H. apply String.app_inj in H. apply (String.app_inj "-") in H.
  now apply string_app_inv_tail in H.
Qed.

(** The validator accepts exactly the documents that have the five
    groups. *)
Lemma validate_structure_true p :
  (_validate_psd_structure p).1 = true <->
  forall required, required ∈ required_groups -> has_group p required.
Proof.
  unfold _validate_psd_structure.
  destruct (List.find _ required_groups) as [r|] eqn:E; simpl.
  - apply find_some in E as [Hin Hr].
    apply negb_true_iff, bool_decide_eq_false in Hr.
    split; [discriminate|]. intros Hall. exfalso.
    apply Hr, elem_of_group_names, Hall. now apply list_elem_of_In.
  - split; [intros _|reflexivity]. intros r Hin. apply list_elem_of_In in Hin.
    pose proof (find_none _ _ E r Hin) as Hf. simpl in Hf.
    apply negb_false_iff, bool_decide_eq_true in Hf. now apply elem_of_group_names.
Qed.

Variable w : World.
Variable self : PSDProcessor.
Variable self_psd : PSDImage.

(** What an entry of the loop holds. *)
Lemma entry_fields c v :
  entry w self self_psd c = Some v ->
  exists img,
    _render_layer_combination w self_psd c = Return img
    /\ filename v = stem self +:+ "-" +:+ c +:+ "-metalware_1.jpg"
    /\ path v = path_join w (output_dir self) (filename v)
    /\ color v = c /\ metalware v = "metalware"
    /\ size v = Image.size img
    /\ 1 < (size v).1 /\ 1 < (size v).2
    /\ image_hash v = md5_pixels w img
    /\ save_jpeg w (path v) img = Return (file_hash v, file_size v).
Proof.
  unfold entry, variant_step.
  destruct (_render_layer_combination w self_psd c) as [img|e] eqn:Er; simpl; [|discriminate].
  pose proof (render_non_degenerate w _ _ _ Er) as Hnd.
  apply non_degenerate_spec in Hnd as [Hw Hh].
  destruct ((Image.width img <=? 1) || (Image.height img <=? 1)); simpl; [discriminate|].
  destruct (save_jpeg w _ img) as [[fh fs]|e] eqn:Es; simpl; [|discriminate].
  intros [= <-]. exists img. simpl. repeat split; assumption.
Qed.

Lemma NoDup_omap_entries names :
  NoDup names -> NoDup (map color (omap (entry w self self_psd) names)).
Proof.
  intros Hnd. rewrite colors_of_entries. now apply NoDup_filter_bool.
Qed.

End EntryFacts.

(** X9.  [load_psd] succeeds exactly when the file opens and the
    document has the five required groups.  Whenever the file opens, the
    document is stored in [self.psd], also when the structure is then
    rejected; when it does not open the processor is left as it was.
    The parser is called a second time only after a [TypeError].  A run
    never uses a document the processor held before: [process] gives the
    same result whatever [self.psd] was. *)
Theorem load_psd_stores_what_it_opened (w : World) (self : PSDProcessor) :
  ((load_psd w self).2 = true <->
     exists p, open_document w = Return p
               /\ forall required, required ∈ required_groups -> has_group p required)
  /\ (forall p, open_document w = Return p ->
        (load_psd w self).1 = mkProcessor (stem self) (output_dir self) (Some p))
  /\ (forall e, open_document w = Raise e -> load_psd w self = (self, false))
  /\ (open_psd_lenient w = Raise TypeError -> open_document w = open_psd w)
  /\ (open_psd_lenient w <> Raise TypeError -> open_document w = open_psd_lenient w)
  /\ (forall stale,
        process_run w self
        = process_run w (mkProcessor (stem self) (output_dir self) stale)).
Proof.
  split; [|split; [|split; [|split; [|split]]]].
  - unfold load_psd. destruct (open_document w) as [p|e]; simpl.
    + pose proof (validate_structure_true p) as Hv.
      destruct ((_validate_psd_structure p).1); simpl; split.
      * intros _. exists p. split; [reflexivity | now apply Hv].
      * reflexivity.
      * discriminate.
      * intros (p' & [= <-] & Hall). now apply Hv.
    + split; [discriminate | intros (p & [=] & _)].
  - intros p Ho. unfold load_psd. rewrite Ho.
    destruct ((_validate_psd_structure p).1); reflexivity.
  - intros e Ho. unfold load_psd. now rewrite Ho.
  - intros H. unfold open_document. now rewrite H.
  - intros H. unfold open_document.
    destruct (open_psd_lenient w) as [p|[]]; try reflexivity. contradiction.
  - intros stale. unfold process_run, load_psd. simpl.
    destruct (open_document w) as [p|e]; [|reflexivity].
    destruct ((_validate_psd_structure p).1); reflexivity.
Qed.

(** X10.  The variants [generate_variants] returns carry pairwise
    distinct colors and pairwise distinct file names, and there are at
    most as many as camera has colors.  Each one is named
    [<stem>-<color>-metalware_1.jpg], has as its path what [pathlib]
    makes of the output directory and that name, reports an image more
    than one pixel wide and high, and holds the digests and the size of
    exactly the image that the render returned for its color and that
    was saved under its path. *)
Theorem variants_are_distinct_and_well_formed
    (w : World) (self : PSDProcessor) (p : PSDImage) (vs : list Variant) :
  psd self = Some p ->
  generate_variants w self = Return vs ->
  NoDup (map color vs) /\ NoDup (map filename vs)
  /\ (length vs <= length (_get_layer_colors p "camera"))%nat
  /\ Forall
       (fun v =>
          filename v = stem self +:+ "-" +:+ color v +:+ "-metalware_1.jpg"
          /\ path v = path_join w (output_dir self) (filename v)
          /\ metalware v = "metalware"
          /\ 1 < (size v).1 /\ 1 < (size v).2
          /\ exists img,
               _render_layer_combination w p (color v) = Return img
               /\ size v = Image.size img
               /\ image_hash v = md5_pixels w img
               /\ save_jpeg w (path v) img = Return (file_hash v, file_size v))
       vs.
Proof.
  intros Hp Hvs.
  pose proof (generate_variants_returns w self p Hp vs Hvs) as ->.
  assert (NoDup (valid_color_names p)) as Hnd.
  { rewrite valid_color_names_spec. apply NoDup_filter_bool, NoDup_get_layer_colors. }
  assert (Forall
            (fun v =>
               filename v = stem self +:+ "-" +:+ color v +:+ "-metalware_1.jpg"
               /\ path v = path_join w (output_dir self) (filename v)
               /\ metalware v = "metalware"
               /\ 1 < (size v).1 /\ 1 < (size v).2
               /\ exists img,
                    _render_layer_combination w p (color v) = Return img
                    /\ size v = Image.size img
                    /\ image_hash v = md5_pixels w img
                    /\ save_jpeg w (path v) img = Return (file_hash v, file_size v))
            (omap (entry w self p) (valid_color_names p))) as Hshape.
  { apply Forall_forall. intros v Hv.
    apply list_elem_of_omap in Hv as (c & _ & Hc).
    destruct (entry_fields w self p c v Hc)
      as (img & Hr & Hf & Hpath & Hcol & Hm & Hs & Hw & Hh & Hi & Hsave).
    rewrite Hcol. repeat split; try assumption. exists img. repeat split; assumption. }
  assert (NoDup (map color (omap (entry w self p) (valid_color_names p)))) as Hcolors
    by now apply NoDup_omap_entries.
  split; [exact Hcolors|]. split; [|split; [|exact Hshape]].
  - revert Hcolors Hshape. generalize (omap (entry w self p) (valid_color_names p)).
    induction l as [|v l IH]; simpl; intros Hc Hs; [constructor|].
    apply NoDup_cons in Hc as [Hv Hc]. apply Forall_cons in Hs as [Hsv Hs].
    constructor; [|now apply IH].
    intros Hin. apply Hv. apply list_elem_of_fmap in Hin as (v' & Heq & Hv').
    apply list_elem_of_fmap. exists v'. split; [|exact Hv'].
    pose proof (proj1 (Forall_forall _ _) Hs v' Hv') as (Hf' & _).
    destruct Hsv as (Hf & _). rewrite Hf, Hf' in Heq. now apply filename_inj in Heq.
  - rewrite <- (length_map color), colors_of_entries, valid_color_names_spec,
      filter_filter_bool.
    apply filter_length_le.
Qed.

(** The two variants of [camera_first]. *)
Lemma variants_are_distinct_and_well_formed_witness :
  exists vs,
    generate_variants (quiet_world camera_first)
      (mkProcessor "doc" "/out" (Some camera_first)) = Return vs
    /\ map filename vs = ["doc-blue-metalware_1.jpg"; "doc-red-metalware_1.jpg"]
    /\ NoDup (map filename vs).
Proof.
  eexists. split; [vm_compute; reflexivity|]. split; [reflexivity|].
  apply (variants_are_distinct_and_well_formed (quiet_world camera_first)
           (mkProcessor "doc" "/out" (Some camera_first)) camera_first);
    [reflexivity | vm_compute; reflexivity].
Defined.

(** X15.  Whatever tier produced it, an image the render returns is in
    mode RGB.  When the native compositor returns an image more than one
    pixel wide and high, the render returns that image, converted to RGB
    if it was in another mode, with its size and its color channels
    unchanged; the manual flatten is not consulted. *)
Theorem render_returns_rgb (w : World) (self_psd : PSDImage) (color_name : string) :
  (forall img,
      _render_layer_combination_fixed w self_psd color_name = Return img ->
      Image.mode img = Image.RGB)
  /\ (forall p native,
        open_psd w = Return p ->
        composite w (_set_layer_visibility_fixed self_psd p color_name)
          = Return (Some native) ->
        1 < Image.width native -> 1 < Image.height native ->
        exists img,
          _render_layer_combination_fixed w self_psd color_name = Return img
          /\ Image.size img = Image.size native
          /\ forall x y,
               Image.r (Image.getpixel img x y) = Image.r (Image.getpixel native x y)
               /\ Image.g (Image.getpixel img x y) = Image.g (Image.getpixel native x y)
               /\ Image.b (Image.getpixel img x y) = Image.b (Image.getpixel native x y)).
Proof.
  split.
  - intros img. unfold _render_layer_combination_fixed.
    destruct (open_psd w) as [p|e]; [|discriminate].
    destruct (native_tier w _) as [im|] eqn:En.
    + destruct (Image.mode_eqb (Image.mode im) Image.RGB) eqn:Em; intros [= <-].
      * destruct (Image.mode im); try discriminate. reflexivity.
      * reflexivity.
    + destruct (flatten_tier _) as [im|] eqn:Ef.
      * destruct (flatten_tier_shape _ _ Ef) as [Hm _]. rewrite Hm. simpl.
        now intros [= <-].
      * intros [= <-]. reflexivity.
  - intros p native Ho Hc Hw Hh.
    unfold _render_layer_combination_fixed, native_tier. rewrite Ho, Hc.
    rewrite (proj2 (non_degenerate_spec native) (conj Hw Hh)).
    destruct (Image.mode_eqb _ _); eexists; repeat split.
Qed.

(** ** The duplicate check *)

Section DuplicateFacts.

Lemma first_occurrences_snoc l x :
  first_occurrences (l ++ [x]) =
    if bool_decide (x ∈ l) then first_occurrences l else first_occurrences l ++ [x].
Proof.
  induction l as [|y l IH]; simpl; [reflexivity|].
  rewrite IH. destruct (decide (x = y)) as [->|Hne].
  - rewrite (bool_decide_eq_true_2 (y ∈ y :: l)) by (apply elem_of_cons; now left).
    case_bool_decide; [reflexivity|].
    rewrite List.filter_app. simpl.
    rewrite (bool_decide_eq_true_2 (y = y)) by reflexivity. simpl.
    now rewrite app_nil_r.
  - rewrite (bool_decide_ext (x ∈ y :: l) (x ∈ l))
      by (rewrite elem_of_cons; tauto).
    case_bool_decide; [reflexivity|].
    rewrite List.filter_app. simpl.
    rewrite (bool_decide_eq_false_2 (x = y)) by exact Hne. reflexivity.
Qed.

Lemma dict_get_fresh {V} (d : list (string * V)) k v :
  k ∉ map fst d -> dict_get (d ++ [(k, v)]) k = Some v.
Proof.
  induction d as [|[k' v'] d IH]; simpl; intros Hk.
  - now rewrite bool_decide_eq_true_2.
  - apply not_elem_of_cons in Hk as [Hne Hk].
    rewrite bool_decide_eq_false_2 by congruence. auto.
Qed.

Lemma dict_set_last {V} (d : list (string * V)) k v v' :
  k ∉ map fst d -> dict_set (d ++ [(k, v)]) k v' = d ++ [(k, v')].
Proof.
  induction d as [|[k' v''] d IH]; simpl; intros Hk.
  - now rewrite bool_decide_eq_true_2.
  - apply not_elem_of_cons in Hk as [Hne Hk].
    rewrite bool_decide_eq_false_2 by congruence. now rewrite IH.
Qed.

(** Lookup and update in a dictionary given by its keys and a function
    of the key. *)
Lemma dict_get_keyed {V} (F : string -> V) keys k :
  k ∈ keys -> dict_get (map (fun h => (h, F h)) keys) k = Some (F k).
Proof.
  induction keys as [|h keys IH]; simpl; intros Hk; [inversion Hk|].
  destruct (decide (h = k)) as [->|Hne].
  - now rewrite bool_decide_eq_true_2.
  - rewrite bool_decide_eq_false_2 by exact Hne.
    apply elem_of_cons in Hk as [->|Hk]; [contradiction | auto].
Qed.

Lemma dict_set_keyed {V} (F : string -> V) keys k v :
  NoDup keys -> k ∈ keys ->
  dict_set (map (fun h => (h, F h)) keys) k v =
    map (fun h => (h, if bool_decide (h = k) then v else F h)) keys.
Proof.
  induction keys as [|h keys IH]; simpl; intros Hnd Hk; [inversion Hk|].
  apply NoDup_cons in Hnd as [Hh Hnd].
  destruct (decide (h = k)) as [->|Hne].
  - rewrite !bool_decide_eq_true_2 by reflexivity. f_equal.
    apply map_ext_in. intros h Hin. apply list_elem_of_In in Hin.
    rewrite bool_decide_eq_false_2; [reflexivity|]. intros ->. contradiction.
  - rewrite !(bool_decide_eq_false_2 (h = k)) by exact Hne. f_equal.
    apply elem_of_cons in Hk as [->|Hk]; [contradiction | now apply IH].
Qed.

Lemma colors_with_hash_snoc vs v h :
  colors_with_hash (vs ++ [v]) h =
    colors_with_hash vs h ++ (if bool_decide (file_hash v = h) then [color v] else []).
Proof.
  unfold colors_with_hash. rewrite List.filter_app, map_app. simpl.
  destruct (bool_decide (file_hash v = h)); reflexivity.
Qed.

Lemma colors_with_hash_nil vs h :
  h ∉ map file_hash vs -> colors_with_hash vs h = [].
Proof.
  unfold colors_with_hash. induction vs as [|v vs IH]; simpl; intros Hh; [reflexivity|].
  apply not_elem_of_cons in Hh as [Hne Hh].
  rewrite bool_decide_eq_false_2 by congruence. auto.
Qed.

(** The groups after the first loop: one per file hash, in the order in
    which the hashes first appear, each with the colors that carry it. *)
Lemma hash_groups_spec vs :
  hash_groups vs =
    map (fun h => (h, colors_with_hash vs h)) (first_occurrences (map file_hash vs)).
Proof.
  unfold hash_groups.
  induction vs as [|v vs IH] using rev_ind; [reflexivity|].
  rewrite fold_left_app. simpl. rewrite IH. clear IH.
  rewrite map_app. simpl. rewrite first_occurrences_snoc.
  set (keys := first_occurrences (map file_hash vs)).
  assert (NoDup keys) as Hnd by apply NoDup_first_occurrences.
  assert (map fst (map (fun h => (h, colors_with_hash vs h)) keys) = keys) as Hkeys
    by (rewrite map_map; apply map_id).
  unfold group_step. rewrite Hkeys.
  rewrite (bool_decide_ext (file_hash v ∈ keys) (file_hash v ∈ map file_hash vs))
    by apply elem_of_first_occurrences.
  case_bool_decide as Hin; simpl.
  - assert (file_hash v ∈ keys) as Hk by now apply elem_of_first_occurrences.
    rewrite (dict_get_keyed (colors_with_hash vs) keys _ Hk).
    rewrite (dict_set_keyed (colors_with_hash vs) keys _ _ Hnd Hk).
    apply map_ext. intros h. rewrite colors_with_hash_snoc.
    rewrite (bool_decide_ext (h = file_hash v) (file_hash v = h)) by (split; congruence).
    case_bool_decide as Hh; [now subst | now rewrite app_nil_r].
  - assert (file_hash v ∉ map fst (map (fun h => (h, colors_with_hash vs h)) keys)) as Hfresh.
    { rewrite Hkeys. unfold keys. now rewrite elem_of_first_occurrences. }
    rewrite (dict_set_fresh _ _ _ Hfresh), (dict_get_fresh _ _ _ Hfresh).
    rewrite (dict_set_last _ _ _ _ Hfresh). rewrite map_app. simpl.
    rewrite colors_with_hash_snoc, (colors_with_hash_nil vs _ Hin).
    rewrite bool_decide_eq_true_2 by reflexivity. simpl. f_equal.
    apply map_ext_in. intros h Hh. apply list_elem_of_In in Hh.
    rewrite colors_with_hash_snoc.
    rewrite bool_decide_eq_false_2; [now rewrite app_nil_r|].
    intros Heq. apply Hin. rewrite Heq. now apply elem_of_first_occurrences.
Qed.

(** Hashes are pairwise distinct exactly when none of them is carried
    by two variants. *)
Lemma NoDup_hashes vs :
  NoDup (map file_hash vs) <->
  forall h, h ∈ map file_hash vs -> (length (colors_with_hash vs h) <= 1)%nat.
Proof.
  unfold colors_with_hash. induction vs as [|v vs IH]; simpl.
  - split; [intros _ h Hh; inversion Hh | constructor].
  - rewrite NoDup_cons, IH. split.
    + intros [Hv Hall] h Hh. rewrite length_map.
      case_bool_decide as Heq; simpl.
      * subst h. pose proof (colors_with_hash_nil vs _ Hv) as Hnil.
        unfold colors_with_hash in Hnil. apply (f_equal (@length string)) in Hnil.
        rewrite length_map in Hnil. rewrite Hnil. simpl. lia.
      * apply elem_of_cons in Hh as [->|Hh]; [congruence|].
        specialize (Hall h Hh). now rewrite length_map in Hall.
    + intros Hall. split.
      * intros Hv. specialize (Hall (file_hash v) (ltac:(apply elem_of_cons; now left))).
        rewrite bool_decide_eq_true_2 in Hall by reflexivity. simpl in Hall.
        apply list_elem_of_fmap in Hv as (v' & Heq & Hv').
        assert (In v' (List.filter (fun v0 => bool_decide (file_hash v0 = file_hash v)) vs))
          as Hin.
        { apply filter_In. split; [now apply list_elem_of_In|].
          now apply bool_decide_eq_true. }
        destruct (List.filter _ vs); [destruct Hin | simpl in Hall; lia].
      * intros h Hh.
        specialize (Hall h (ltac:(apply elem_of_cons; now right))).
        destruct (bool_decide (file_hash v = h)); simpl in Hall; lia.
Qed.

End DuplicateFacts.

(** X11.  The duplicate check groups the variants by file hash: there is
    one group per hash, in the order in which the hashes first appear,
    and the group of a hash lists, in order, the colors of the variants
    that carry it.  A group of several colors is logged as a warning, a
    group of one as an info record; so no warning is logged exactly when
    the file hashes of the variants are pairwise distinct. *)
Theorem duplicate_check_groups_by_hash (vs : list Variant) :
  map fst (hash_groups vs) = first_occurrences (map file_hash vs)
  /\ (forall h colors,
        (h, colors) ∈ hash_groups vs <->
        h ∈ map file_hash vs /\ colors = colors_with_hash vs h)
  /\ (forall level h colors,
        (level, h, colors) ∈ duplicate_records vs ->
        colors = colors_with_hash vs h
        /\ (level = WARNING /\ (2 <= length colors)%nat
            \/ level = INFO /\ exists c, colors = [c]))
  /\ (Forall (fun record => record.1.1 = INFO) (duplicate_records vs) <->
      NoDup (map file_hash vs)).
Proof.
  assert (forall h colors,
             (h, colors) ∈ hash_groups vs <->
             h ∈ map file_hash vs /\ colors = colors_with_hash vs h) as Hgroups.
  { intros h colors. rewrite hash_groups_spec, list_elem_of_fmap. split.
    - intros (h' & [= -> ->] & Hin). split; [|reflexivity].
      now apply elem_of_first_occurrences.
    - intros [Hin ->]. exists h. split; [reflexivity|].
      now apply elem_of_first_occurrences. }
  assert (forall h, h ∈ map file_hash vs -> (1 <= length (colors_with_hash vs h))%nat)
    as Hone.
  { intros h Hh. apply list_elem_of_fmap in Hh as (v & -> & Hv).
    unfold colors_with_hash. rewrite length_map.
    assert (In v (List.filter (fun v0 => bool_decide (file_hash v0 = file_hash v)) vs)) as Hin.
    { apply filter_In. split; [now apply list_elem_of_In|].
      now apply bool_decide_eq_true. }
    destruct (List.filter _ vs); [destruct Hin | simpl; lia]. }
  split; [|split; [exact Hgroups|split]].
  - rewrite hash_groups_spec, map_map. apply map_id.
  - intros level h colors Hrec. unfold duplicate_records in Hrec.
    apply list_elem_of_fmap in Hrec as ([h' cs] & Heq & Hin).
    apply Hgroups in Hin as [Hin ->]. simpl in Heq.
    specialize (Hone h' Hin).
    destruct (1 <? length (colors_with_hash vs h'))%nat eqn:Hlen;
      injection Heq as -> -> ->; (split; [reflexivity|]).
    + left. apply Nat.ltb_lt in Hlen. split; [reflexivity | lia].
    + right. apply Nat.ltb_ge in Hlen. split; [reflexivity|].
      destruct (colors_with_hash vs h') as [|c [|c' cs]]; simpl in *; try lia. eauto.
  - rewrite NoDup_hashes. unfold duplicate_records. rewrite Forall_fmap, Forall_forall.
    split.
    + intros Hall h Hh.
      specialize (Hall (h, colors_with_hash vs h) (proj2 (Hgroups _ _) (conj Hh eq_refl))).
      simpl in Hall.
      destruct (1 <? length (colors_with_hash vs h))%nat eqn:Hlen; [discriminate|].
      now apply Nat.ltb_ge in Hlen.
    + intros Hall [h cs] Hin. apply Hgroups in Hin as [Hin ->]. simpl.
      specialize (Hall h Hin).
      destruct (1 <? length (colors_with_hash vs h))%nat eqn:Hlen; [|reflexivity].
      apply Nat.ltb_lt in Hlen. lia.
Qed.

(** ** The older rule, and file names *)

Section NameFacts.

Lemma prefix_refl s : String.prefix s s = true.
Proof.
  induction s as [|c s IH]; simpl; [reflexivity|].
  destruct (ascii_dec c c); [exact IH | contradiction].
Qed.

Lemma contains_refl s : Py.contains s s = true.
Proof.
  destruct s as [|c s]; [reflexivity|].
  change (Py.contains (String c s) (String c s))
    with (String.prefix (String c s) (String c s) || Py.contains (String c s) s).
  now rewrite prefix_refl.
Qed.

Lemma contains_empty s : Py.contains "" s = true.
Proof. destruct s; reflexivity. Qed.

Lemma existsb_app_l {A} (p : A -> bool) l1 l2 :
  existsb p l1 = true -> existsb p (l1 ++ l2) = true.
Proof. intros H. rewrite existsb_app, H. reflexivity. Qed.

(** The dot test of one character. *)
Lemma prefix_dot c s : String.prefix "." (String c s) = bool_decide (c = "."%char).
Proof.
  change (String.prefix "." (String c s))
    with (if ascii_dec "." c then String.prefix "" s else false).
  destruct (ascii_dec "." c) as [<-|Hne].
  - rewrite bool_decide_eq_true_2 by reflexivity. now destruct s.
  - rewrite bool_decide_eq_false_2; [reflexivity | congruence].
Qed.

Lemma lower_char_dot c : Py.lower_char c = "."%char <-> c = "."%char.
Proof.
  split; [|intros ->; reflexivity].
  destruct c as [[] [] [] [] [] [] [] []]; vm_compute; congruence.
Qed.

Lemma contains_dot_lower s : Py.contains "." (Py.lower s) = Py.contains "." s.
Proof.
  induction s as [|c s IH]; [reflexivity|].
  change (Py.lower (String c s)) with (String (Py.lower_char c) (Py.lower s)).
  change (Py.contains "." (String (Py.lower_char c) (Py.lower s)))
    with (String.prefix "." (String (Py.lower_char c) (Py.lower s))
          || Py.contains "." (Py.lower s)).
  change (Py.contains "." (String c s))
    with (String.prefix "." (String c s) || Py.contains "." s).
  rewrite !prefix_dot, IH. f_equal. apply bool_decide_ext, lower_char_dot.
Qed.

(** [rsplit] cuts a string at its last dot: it returns the string alone
    when there is no dot in it, and otherwise two parts, the second
    without a dot, that give the string back when joined by a dot. *)
Lemma rsplit_dot_cases s :
  (rsplit "." s = [s] /\ Py.contains "." s = false)
  \/ (exists head_ tail_,
        rsplit "." s = [head_; tail_] /\ Py.contains "." s = true
        /\ s = head_ +:+ "." +:+ tail_ /\ Py.contains "." tail_ = false).
Proof.
  induction s as [|c s IH]; [left; split; reflexivity|].
  change (Py.contains "." (String c s))
    with (String.prefix "." (String c s) || Py.contains "." s).
  rewrite prefix_dot. simpl rsplit.
  destruct IH as [[Hr Hc]|(h & t & Hr & Hc & Hs & Ht)]; rewrite Hr, Hc.
  - destruct (decide (c = "."%char)) as [->|Hne].
    + right. exists "", s. rewrite !bool_decide_eq_true_2 by reflexivity.
      repeat split. exact Hc.
    + left. rewrite !bool_decide_eq_false_2 by exact Hne. now split.
  - right. exists (String c h), t. rewrite orb_true_r.
    repeat split; [|exact Ht].
    change (String c h +:+ "." +:+ t) with (String c (h +:+ "." +:+ t)).
    now rewrite <- Hs.
Qed.

Lemma string_app_assoc s1 s2 s3 : (s1 +:+ s2) +:+ s3 = s1 +:+ (s2 +:+ s3).
Proof.
  induction s1 as [|c s1 IH]; [reflexivity|].
  change (String c ((s1 +:+ s2) +:+ s3) = String c (s1 +:+ (s2 +:+ s3))).
  now rewrite IH.
Qed.

Lemma endswith_refl s : endswith s s = true.
Proof.
  destruct s as [|c s]; [reflexivity|].
  change (endswith (String c s) (String c s))
    with (bool_decide (String c s = String c s) || endswith s (String c s)).
  now rewrite bool_decide_eq_true_2.
Qed.

Lemma endswith_app s suffix : endswith (s +:+ suffix) suffix = true.
Proof.
  induction s as [|c s IH].
  - apply endswith_refl.
  - change (endswith (String c s +:+ suffix) suffix)
      with (bool_decide (String c (s +:+ suffix) = suffix) || endswith (s +:+ suffix) suffix).
    rewrite IH. apply orb_true_r.
Qed.

Lemma endswith_spec s suffix :
  endswith s suffix = true <-> exists before, s = before +:+ suffix.
Proof.
  split.
  - induction s as [|c s IH]; simpl.
    + rewrite orb_false_r. intros H%bool_decide_eq_true. exists "". now subst.
    + intros [H%bool_decide_eq_true|H]%orb_true_iff.
      * exists "". now subst.
      * destruct (IH H) as [before ->]. now exists (String c before).
  - intros [before ->]. apply endswith_app.
Qed.

(** The extension test of [allowed_file] is the suffix test of the
    download branch. *)
Lemma allowed_file_endswith filename :
  allowed_file filename = endswith (Py.lower filename) ".psd".
Proof.
  unfold allowed_file.
  induction filename as [|c s IH]; [reflexivity|].
  change (Py.lower (String c s)) with (String (Py.lower_char c) (Py.lower s)).
  change (endswith (String (Py.lower_char c) (Py.lower s)) ".psd")
    with (bool_decide (String (Py.lower_char c) (Py.lower s) = ".psd")
          || endswith (Py.lower s) ".psd").
  rewrite <- IH. clear IH.
  change (Py.contains "." (String c s))
    with (String.prefix "." (String c s) || Py.contains "." s).
  rewrite prefix_dot. simpl rsplit.
  destruct (rsplit_dot_cases s) as [[Hr Hc]|(h & t & Hr & Hc & Hs & Ht)]; rewrite Hr, Hc.
  - rewrite andb_false_l, orb_false_r, orb_false_r.
    destruct (decide (c = "."%char)) as [->|Hne].
    + rewrite !(bool_decide_eq_true_2 ("."%char = "."%char)) by reflexivity.
      rewrite andb_true_l.
      apply bool_decide_ext. rewrite list_elem_of_singleton.
      change (Py.lower_char ".") with "."%char. split; congruence.
    + rewrite !(bool_decide_eq_false_2 (c = "."%char)) by exact Hne.
      rewrite andb_false_l. symmetry. apply bool_decide_eq_false.
      intros [= H _]. apply (proj1 (lower_char_dot c)) in H. contradiction.
  - rewrite orb_true_r, !andb_true_l.
    rewrite (bool_decide_eq_false_2 (String (Py.lower_char c) (Py.lower s) = ".psd"));
      [reflexivity|].
    intros [= _ H].
    pose proof (contains_dot_lower s) as Hd. rewrite H, Hc in Hd. discriminate.
Qed.

End NameFacts.

(** X12.  [_should_show_layer] never shows a layer without a name.  A
    named layer is shown when its parent is [@main] or [bg], whatever
    the list; when its own normal form or its parent's lower-cased name
    equals a lower-cased entry of the list; and always when the list
    holds the empty string, which is found in any name.  Adding entries
    to the list never hides a layer. *)
Theorem should_show_layer_matches
    (parent own : string) (layers_to_show : list string) :
  _should_show_layer parent "" layers_to_show = false
  /\ (own <> "" ->
      (Py.lower parent = "@main" \/ Py.lower parent = "bg" ->
         _should_show_layer parent own layers_to_show = true)
      /\ (forall target, target ∈ layers_to_show ->
            Py.strip (Py.lower own) = Py.lower target
            \/ Py.lower parent = Py.lower target ->
            _should_show_layer parent own layers_to_show = true)
      /\ ("" ∈ layers_to_show -> _should_show_layer parent own layers_to_show = true)
      /\ (forall more,
            _should_show_layer parent own layers_to_show = true ->
            _should_show_layer parent own (layers_to_show ++ more) = true
            /\ _should_show_layer parent own (more ++ layers_to_show) = true)).
Proof.
  split; [reflexivity|]. intros Hown.
  assert (Py.truthy own = true) as Ht by now apply truthy_spec.
  unfold _should_show_layer. rewrite Ht. simpl.
  split; [|split; [|split]].
  - intros [->| ->]; reflexivity.
  - intros target Hin Hmatch.
    repeat (case_bool_decide; [reflexivity|]).
    apply existsb_exists. exists target. split; [now apply list_elem_of_In|].
    destruct Hmatch as [-> | ->]; rewrite contains_refl; [reflexivity | apply orb_true_r].
  - intros Hin. repeat (case_bool_decide; [reflexivity|]).
    apply existsb_exists. exists "". split; [now apply list_elem_of_In|].
    simpl. now rewrite contains_empty.
  - intros more. repeat (case_bool_decide; [auto|]).
    intros Hshown. rewrite !existsb_app, Hshown. split; [reflexivity | apply orb_true_r].
Qed.

(** X13.  [allowed_file] accepts exactly the names of the form
    [<base>.<extension>] whose extension is [psd] in some mix of upper
    and lower case; that is the test the download branch applies to the
    lower-cased name with [endswith('.psd')]. *)
Theorem allowed_file_iff_psd_extension (filename : string) :
  (allowed_file filename = true <->
     exists base extension,
       filename = base +:+ "." +:+ extension /\ Py.lower extension = "psd")
  /\ allowed_file filename = endswith (Py.lower filename) ".psd".
Proof.
  split; [|apply allowed_file_endswith].
  rewrite allowed_file_endswith, endswith_spec. split.
  - intros [before H].
    assert (forall f pre, Py.lower f = pre +:+ ".psd" ->
              exists base extension,
                f = base +:+ "." +:+ extension /\ Py.lower extension = "psd") as Hsplit.
    { clear. intros f pre. revert f.
      induction pre as [|c pre IH]; intros f H.
      - destruct f as [|a f]; [discriminate|]. injection H as Ha Hf.
        apply lower_char_dot in Ha as ->. exists "", f. now split.
      - destruct f as [|a f]; [discriminate|]. injection H as Ha Hf.
        destruct (IH f Hf) as (base & ext & -> & Hext).
        exists (String a base), ext. now split. }
    exact (Hsplit _ _ H).
  - intros (base & ext & -> & Hext).
    exists (Py.lower base). rewrite !lower_app, Hext. reflexivity.
Qed.

(** X14.  The name chosen for a downloaded file always passes
    [allowed_file].  A name that already ends in [.psd], in any case, is
    kept as it is; and the default name [upload_<job_id>.psd] is used
    for an empty base name without a second suffix. *)
Theorem download_filename_is_allowed (url_basename job_id : string) :
  allowed_file (download_filename url_basename job_id) = true
  /\ (url_basename <> "" -> allowed_file url_basename = true ->
      download_filename url_basename job_id = url_basename)
  /\ (url_basename <> "" -> allowed_file url_basename = false ->
      download_filename url_basename job_id = url_basename +:+ ".psd")
  /\ download_filename "" job_id = "upload_" +:+ job_id +:+ ".psd".
Proof.
  assert (forall f,
             allowed_file (if negb (endswith (Py.lower f) ".psd") then f +:+ ".psd" else f)
             = true) as Hfix.
  { intros f. destruct (endswith (Py.lower f) ".psd") eqn:E; simpl.
    - now rewrite allowed_file_endswith.
    - rewrite allowed_file_endswith, lower_app. apply endswith_app. }
  split; [|split; [|split]].
  - unfold download_filename. apply Hfix.
  - intros Hne Ha. apply truthy_spec in Hne.
    unfold download_filename. rewrite Hne, <- allowed_file_endswith, Ha. reflexivity.
  - intros Hne Ha. apply truthy_spec in Hne.
    unfold download_filename. rewrite Hne, <- allowed_file_endswith, Ha. reflexivity.
  - unfold download_filename. simpl Py.truthy. cbv iota.
    assert (endswith (Py.lower ("upload_" +:+ job_id +:+ ".psd")) ".psd" = true) as ->;
      [|reflexivity].
    change ("upload_" +:+ job_id +:+ ".psd") with ("upload_" +:+ (job_id +:+ ".psd")).
    rewrite lower_app, lower_app.
    change (Py.lower ".psd") with ".psd".
    apply endswith_spec. exists (Py.lower "upload_" +:+ Py.lower job_id).
    symmetry. apply string_app_assoc.
Qed.

(** ** A run in which nothing goes wrong *)

Section SuccessFacts.

Variable w : World.

(** Once the document opens, the render returns: no tier raises. *)
Lemma render_returns self_psd color_name p :
  open_psd w = Return p ->
  exists img, _render_layer_combination_fixed w self_psd color_name = Return img.
Proof.
  intros Ho. unfold _render_layer_combination_fixed. rewrite Ho.
  destruct (native_tier w _) as [im|].
  - destruct (Image.mode_eqb _ _); eauto.
  - destruct (flatten_tier _) as [im|].
    + destruct (Image.mode_eqb _ _); eauto.
    + destruct (debug_image_returns color_name
                  (_validate_visibility_settings self_psd
                     (_set_layer_visibility_fixed self_psd p color_name) color_name))
        as (img & -> & _). eauto.
Qed.

Lemma entry_exists self self_psd color_name p :
  open_psd w = Return p ->
  (forall path img, exists saved, save_jpeg w path img = Return saved) ->
  has_entry w self self_psd color_name = true.
Proof.
  intros Ho Hsave. unfold has_entry, entry, variant_step.
  destruct (render_returns self_psd color_name p Ho) as [img Hr].
  unfold _render_layer_combination. rewrite Hr.
  rewrite (size_test_never_fires w self_psd color_name img Hr).
  destruct (Hsave (path_join w (output_dir self)
                     (stem self +:+ "-" +:+ color_name +:+ "-metalware_1.jpg")) img)
    as [[digest bytes] ->].
  reflexivity.
Qed.

Lemma filter_all_true {A} (f : A -> bool) l :
  (forall x, f x = true) -> List.filter f l = l.
Proof.
  intros H. induction l as [|x l IH]; simpl; [reflexivity|]. now rewrite H, IH.
Qed.

End SuccessFacts.

(** X16.  When the file opens, the structure is accepted, at least one
    color is valid, and neither saving a file nor reopening one raises,
    [process] reports success and returns one variant for every valid
    color, in order; a render was started for each of them. *)
Theorem process_succeeds_when_files_behave
    (w : World) (self : PSDProcessor) (p reopened : PSDImage) :
  open_document w = Return p ->
  (_validate_psd_structure p).1 = true ->
  valid_color_names p <> [] ->
  open_psd w = Return reopened ->
  (forall path img, exists saved, save_jpeg w path img = Return saved) ->
  (forall path, exists img, image_open w path = Return img) ->
  exists vs,
    process_run w self = ((true, vs), valid_color_names p)
    /\ map color vs = valid_color_names p.
Proof.
  intros Ho Hv Hvalid Hre Hsave Hopen.
  set (loaded := mkProcessor (stem self) (output_dir self) (Some p)).
  assert (load_psd w self = (loaded, true)) as Hload
    by (unfold load_psd; now rewrite Ho, Hv).
  unfold process_run. rewrite Hload. simpl negb. cbv iota.
  assert (map color (omap (entry w loaded p) (valid_color_names p)) = valid_color_names p)
    as Hcolors.
  { rewrite colors_of_entries. apply filter_all_true.
    intros c. now apply (entry_exists w loaded p c reopened). }
  assert (generate_variants_run w loaded
          = (Return (omap (entry w loaded p) (valid_color_names p)), valid_color_names p))
    as Hrun.
  { unfold generate_variants_run. simpl psd. cbv iota.
    destruct (psd_layers p) eqn:El.
    - exfalso. apply Hvalid.
      rewrite valid_color_names_spec, (no_layers_no_colors p "camera" El). reflexivity.
    - destruct (valid_color_names p) as [|c names] eqn:Ev; [congruence|].
      rewrite fold_variant_step.
      generalize (omap (entry w loaded p) (c :: names)). intros es. simpl.
      unfold _check_duplicate_variants.
      destruct es as [|v [|v' vs']]; try reflexivity.
      destruct (Hopen (path v)) as [img ->]. reflexivity. }
  rewrite Hrun.
  destruct (omap (entry w loaded p) (valid_color_names p)) as [|v vs] eqn:E.
  - simpl in Hcolors. congruence.
  - exists (v :: vs). split; [reflexivity | exact Hcolors].
Qed.

(** The run of [camera_first] in the quiet world. *)
Lemma process_succeeds_when_files_behave_witness :
  exists vs,
    process_run (quiet_world camera_first) (mkProcessor "doc" "/out" None)
    = ((true, vs), ["blue"; "red"])
    /\ map color vs = ["blue"; "red"].
Proof.
  apply (process_succeeds_when_files_behave (quiet_world camera_first)
           (mkProcessor "doc" "/out" None) camera_first camera_first);
    try reflexivity.
  - vm_compute. discriminate.
  - intros path img. eexists. reflexivity.
  - intros path. eexists. reflexivity.
Defined.

(** X17.  After a successful validation the log is empty or holds the
    one warning about metalware.  The warning is there exactly when the
    first [@main] group has children and none of their names contains
    [metalware], in any case; an [@main] group without children logs
    nothing. *)
Theorem metalware_warning_iff (psd : PSDImage) :
  (_validate_psd_structure psd).1 = true ->
  exists main_group,
    _get_group_by_name psd "@main" = Some main_group
    /\ ((_validate_psd_structure psd).2 = []
        \/ (_validate_psd_structure psd).2
           = [(WARNING, "@main group should contain metalware layer")])
    /\ ((_validate_psd_structure psd).2 = [] <->
        children main_group = []
        \/ exists layer, layer ∈ children main_group
                         /\ Py.contains "metalware" (Py.lower (layer_name layer)) = true).
Proof.
  intros Hv.
  assert (exists g, _get_group_by_name psd "@main" = Some g) as [g Hg].
  { destruct (_get_group_by_name psd "@main") as [g|] eqn:E; [eauto|].
    exfalso. apply get_group_None in E. apply E.
    apply (proj1 (validate_structure_true psd) Hv).
    unfold required_groups. apply elem_of_cons. now left. }
  exists g. split; [exact Hg|].
  assert ((_validate_psd_structure psd).2 = metalware_check psd) as ->.
  { unfold _validate_psd_structure in *.
    destruct (List.find _ required_groups); [discriminate | reflexivity]. }
  unfold metalware_check. rewrite Hg.
  destruct (children g) as [|l ls] eqn:Ec.
  - split; [now left|]. split; [now left | reflexivity].
  - destruct (existsb _ (l :: ls)) eqn:Ee.
    + split; [now left|]. split; [|reflexivity]. intros _. right.
      apply existsb_exists in Ee as (layer & Hin & Hm).
      exists layer. split; [now apply list_elem_of_In | exact Hm].
    + split; [now right|]. split; [discriminate|].
      intros [H|(layer & Hin & Hm)]; [discriminate|]. exfalso.
      assert (existsb (fun layer => Py.contains "metalware" (Py.lower (layer_name layer)))
                      (l :: ls) = true) as Ht.
      { apply existsb_exists. exists layer. split; [now apply list_elem_of_In | exact Hm]. }
      congruence.
Qed.

(** [no_metalware] passes and is warned about. *)
Lemma metalware_warning_iff_witness :
  exists main_group,
    _get_group_by_name no_metalware "@main" = Some main_group
    /\ (_validate_psd_structure no_metalware).2
       = [(WARNING, "@main group should contain metalware layer")].
Proof.
  destruct (metalware_warning_iff no_metalware eq_refl) as (g & Hg & _ & _).
  exists g. split; [exact Hg | reflexivity].
Defined.
